(** * SOPHIA photopion event generator: a shallow embedding of
      [src/sophia_interface.cpp] and the properties checked against it.

    Conventions of the embedding.
    - A C++ [int] is a [Z]; [/] and [%] on [int] are [Z.quot] and [Z.rem]
      (truncation towards zero).  Overflow of the 32-bit range is not
      modelled: the counters below stay far inside it.
    - A fixed-size C++ array is a [list], read with [rd] and written with
      [wr]; indices are the zero-based indices of the source.  Reading or
      writing outside the array is undefined behaviour in the source; here a
      read gives the default and a write changes nothing.
    - The generator [RLU] only ever holds multiples of 2^-24 of magnitude
      below 2 in its [double]s, so its arithmetic is exact; it is modelled on
      the numerators, in units of 2^-24.
    - Every other [double] is modelled by an exact rational ([Q]); rounding is
      not modelled.  The functions of [<cmath>] are a class [Libm]. *)

From Stdlib Require Import String ZArith QArith Qabs Qround List Bool Lia Lqa.
Import ListNotations.

Local Open Scope Z_scope.

(** ** Arrays *)

Section Arrays.
Context {A : Type}.

Fixpoint upd (a : list A) (n : nat) (v : A) : list A :=
  match a, n with
  | [], _ => []
  | _ :: t, O => v :: t
  | h :: t, S n' => h :: upd t n' v
  end.

(** [a[i]], with [d] read outside the array. *)
Definition rd (d : A) (a : list A) (i : Z) : A :=
  if i <? 0 then d else nth (Z.to_nat i) a d.

(** [a[i] = v]. *)
Definition wr (a : list A) (i : Z) (v : A) : list A :=
  if i <? 0 then a else upd a (Z.to_nat i) v.
End Arrays.

(** The indices [for (i = lo; i < hi; ++i)] and [for (i = hi; i > lo; --i)]
    run through. *)
Definition range (lo hi : Z) : list Z :=
  map (fun k => lo + Z.of_nat k) (seq 0 (Z.to_nat (hi - lo))).
Definition range_down (hi lo : Z) : list Z := rev (range (lo + 1) (hi + 1)).

(** ** The random source: [RLU] and [RNDM] (JETSET 7.4, RANMAR algorithm) *)

Module Rlu.

(** One, in units of 2^-24. *)
Definition ONE : Z := 16777216.

(** The two file-scope statics [MRLU[6]] and [RRLU[100]]; [RRLU] in units
    of 2^-24. *)
Record rlu_state : Type := mkRlu { MRLU : list Z; RRLU : list Z }.

(** [static int MRLU[6] = {19780503, 0, 0, 97, 33, 0}; static double
    RRLU[100] = {0.};] *)
Definition rlu_static : rlu_state :=
  mkRlu [19780503; 0; 0; 97; 33; 0] (repeat 0 100).

(** The loop over [JJ = 1 .. 24]: [n] iterations left, [Sacc] and [Tbit]
    are the source's [S] and [T] ([T] starts at 0.5; its value after the
    last halving is never read). *)
Fixpoint seed_word (n : nat) (I J K L Sacc Tbit : Z) : Z * Z * Z * Z * Z :=
  match n with
  | O => (I, J, K, L, Sacc)
  | S n' =>
      let M := Z.rem (Z.rem (I * J) 179 * K) 179 in
      let L' := Z.rem (53 * L + 1) 169 in
      let Sacc' := if 32 <=? Z.rem (L' * M) 64 then Sacc + Tbit else Sacc in
      seed_word n' J K M L' Sacc' (Tbit / 2)
  end.

(** The loop over [II]: [n] iterations left, filling [RRLU[II - 1]]. *)
Fixpoint seed_table (n : nat) (II I J K L : Z) (R : list Z) : list Z :=
  match n with
  | O => R
  | S n' =>
      let '(I', J', K', L', Sv) := seed_word 24 I J K L 0 (ONE / 2) in
      seed_table n' (II + 1) I' J' K' L' (wr R (II - 1) Sv)
  end.

(** The table the seed [MRLU[0]] determines: the two nested loops and the
    three constants stored after them. *)
Definition seed_from (seed : Z) (R : list Z) : list Z :=
  let IJ := Z.rem (Z.quot seed 30082) 31329 in
  let KL := Z.rem seed 30082 in
  let I := Z.rem (Z.quot IJ 177) 177 + 2 in
  let J := Z.rem IJ 177 + 2 in
  let K := Z.rem (Z.quot KL 169) 178 + 1 in
  let L := Z.rem KL 169 in
  let R := seed_table 97 1 I J K L R in
  let R := wr R 97 362436 in
  let R := wr R 98 7654321 in
  wr R 99 16777213.

(** The body of [if (MRLU[1] == 0) { ... }]. *)
Definition RLU_seed (isCalledByRNDM : bool) (st : rlu_state) : rlu_state :=
  let M := MRLU st in
  let M := if isCalledByRNDM && (rd 0 M 0 =? 0) then wr M 0 19780503 else M in
  let R := seed_from (rd 0 M 0) (RRLU st) in
  let M := wr M 1 1 in
  let M := wr M 2 0 in
  let M := wr M 3 97 in
  let M := wr M 4 33 in
  mkRlu M R.

(** One pass through the body of the [do { ... } while] loop: the candidate
    [RUNI] and the state it leaves. *)
Definition rlu_iter (st : rlu_state) : Z * rlu_state :=
  let M := MRLU st in
  let R := RRLU st in
  let RUNI := rd 0 R (rd 0 M 3 - 1) - rd 0 R (rd 0 M 4 - 1) in
  let RUNI := if RUNI <? 0 then RUNI + ONE else RUNI in
  let R := wr R (rd 0 M 3 - 1) RUNI in
  let M := wr M 3 (rd 0 M 3 - 1) in
  let M := if rd 0 M 3 =? 0 then wr M 3 97 else M in
  let M := wr M 4 (rd 0 M 4 - 1) in
  let M := if rd 0 M 4 =? 0 then wr M 4 97 else M in
  let R := wr R 97 (rd 0 R 97 - rd 0 R 98) in
  let R := if rd 0 R 97 <? 0 then wr R 97 (rd 0 R 97 + rd 0 R 99) else R in
  let RUNI := RUNI - rd 0 R 97 in
  let RUNI := if RUNI <? 0 then RUNI + ONE else RUNI in
  (RUNI, mkRlu M R).

(** [do { ... } while (RUNI <= 0 || RUNI >= 1.)], with [fuel] passes
    allowed; [None] when they are used up. *)
Fixpoint rlu_loop (fuel : nat) (st : rlu_state) : option (Z * rlu_state) :=
  match fuel with
  | O => None
  | S fuel' =>
      let '(RUNI, st') := rlu_iter st in
      if (RUNI <=? 0) || (ONE <=? RUNI) then rlu_loop fuel' st'
      else Some (RUNI, st')
  end.

(** [double RLU(bool isCalledByRNDM)]: the number drawn, in units of 2^-24,
    and the new statics. *)
Definition RLU (fuel : nat) (isCalledByRNDM : bool) (st : rlu_state)
  : option (Z * rlu_state) :=
  let st := if rd 0 (MRLU st) 1 =? 0 then RLU_seed isCalledByRNDM st else st in
  match rlu_loop fuel st with
  | None => None
  | Some (RUNI, st) =>
      let M := MRLU st in
      let M := wr M 2 (rd 0 M 2 + 1) in
      let M :=
        if rd 0 M 2 =? 1000000000 then wr (wr M 1 (rd 0 M 1 + 1)) 2 0 else M in
      Some (RUNI, mkRlu M (RRLU st))
  end.

(** [double RNDM() { return RLU(true); }] *)
Definition RNDM (fuel : nat) (st : rlu_state) : option (Z * rlu_state) :=
  RLU fuel true st.

(** The [double] a numerator stands for. *)
Definition to_double (n : Z) : Q := n # 16777216.

(** The states the program can be in: the statics as initialised, and what
    any call of [RLU] (from [RNDM] or from the fragmentation code) leaves. *)
Inductive reachable : rlu_state -> Prop :=
| reach_static : reachable rlu_static
| reach_call : forall st fuel b r st',
    reachable st -> RLU fuel b st = Some (r, st') -> reachable st'.

(** What holds of the statics once the table is seeded. *)
Record seeded (st : rlu_state) : Prop := mkSeeded {
  sd_lenM : length (MRLU st) = 6%nat;
  sd_lenR : length (RRLU st) = 100%nat;
  sd_init : 1 <= rd 0 (MRLU st) 1;
  sd_i : 1 <= rd 0 (MRLU st) 3 <= 97;
  sd_j : 1 <= rd 0 (MRLU st) 4 <= 97;
  sd_lag : (rd 0 (MRLU st) 3 - rd 0 (MRLU st) 4) mod 97 = 64;
  sd_tab : forall k, 0 <= k < 97 -> 0 <= rd 0 (RRLU st) k < ONE;
  sd_c : 0 <= rd 0 (RRLU st) 97 < 16777213;
  sd_cd : rd 0 (RRLU st) 98 = 7654321;
  sd_cm : rd 0 (RRLU st) 99 = 16777213
}.

(** The statics before the first call. *)
Definition fresh (st : rlu_state) : Prop :=
  length (MRLU st) = 6%nat /\ length (RRLU st) = 100%nat /\
  rd 0 (MRLU st) 1 = 0.

(** The constants of the subtractive sequence in [RRLU[97]], and the
    pointer arithmetic of [MRLU[3]], [MRLU[4]]: what the proof that the
    loop of [RLU] ends is stated with. *)
Definition LAGP : Z := 16777213.
Definition LAGD : Z := 7654321.

(** [x] brought into [1 .. 97]. *)
Definition wrap97 (x : Z) : Z := (x - 1) mod 97 + 1.

(** The last [k] passes of the loop were all rejected with [R = 0]: the
    [k] entries behind the pointer [MRLU[3]] hold the values the
    subtractive sequence then had. *)
Definition hist (k : Z) (st : rlu_state) : Prop :=
  forall m, 1 <= m <= k -> m <= 97 ->
    rd 0 (RRLU st) (wrap97 (rd 0 (MRLU st) 3 + m) - 1)
    = (rd 0 (RRLU st) 97 + (m - 1) * 7654321) mod 16777213.

Definition pinned (c : Z) : Prop := c = 3337364 \/ c = 3337367 \/ c = 3337370.

(** [n] times two calls of [RNDM] in a row, as the rejection loop of
    [sample_s] makes them: the first number of the last pair ([last] when
    [n = 0]) and the statics after the calls, provided the second number
    of every pair is at least [lo] (both in units of 2^-24). *)
Fixpoint draw_pairs (n : nat) (lo : Z) (last : Z) (st : rlu_state)
  : option (Z * rlu_state) :=
  match n with
  | O => Some (last, st)
  | S n' =>
      match RNDM 99 st with
      | Some (r, st1) =>
          match RNDM 99 st1 with
          | Some (r', st2) => if lo <=? r' then draw_pairs n' lo r st2 else None
          | None => None
          end
      | None => None
      end
  end.

End Rlu.

(** ** Results, [double]s and the functions of [<cmath>] *)

(** What a call ends in: a value; a C++ exception ([std::runtime_error] with
    its message); no end at all (a loop of the source that has no bound of
    its own ran out of the fuel the model gives it); or undefined behaviour
    (a function that returns a [double] reached its end without a
    [return]). *)
Inductive res (A : Type) : Type :=
| Ok (a : A)
| Throw (msg : string)
| Diverge
| Undefined.
Arguments Ok {A} a.
Arguments Throw {A} msg.
Arguments Diverge {A}.
Arguments Undefined {A}.

(** Sequencing of calls that may not return. *)
Definition rbind {A B : Type} (r : res A) (k : A -> res B) : res B :=
  match r with
  | Ok a => k a
  | Throw msg => Throw msg
  | Diverge => Diverge
  | Undefined => Undefined
  end.

(** The functions of [<cmath>] the source calls, on the rationals that stand
    for [double]s. *)
Class Libm : Type := {
  fsqrt : Q -> Q;
  fexp : Q -> Q;
  flog : Q -> Q;
  flog10 : Q -> Q;
  fpow : Q -> Q -> Q;
  fsin : Q -> Q;
  fcos : Q -> Q;
  facos : Q -> Q
}.

(** The static tables of [sophia_interface.h], which is not among the
    sources: masses, charges and baryon numbers by particle code, the nine
    resonances' parameters for proton and neutron, and the integrator
    [gaussInt]. *)
Class Tables : Type := {
  AM : list Q;
  ICHP : list Z;
  IBAR : list Z;
  RATIOJp : list Q;
  BGAMMAp : list Q;
  AMRESp : list Q;
  WIDTHp : list Q;
  RATIOJn : list Q;
  BGAMMAn : list Q;
  AMRESn : list Q;
  WIDTHn : list Q;
  gaussInt : (Q -> res Q) -> Q -> Q -> res Q
}.

(** The Lund/JETSET 7.4 fragmentation code (lines 2875-9728 of the source)
    is not embedded.  It works on its own common blocks ([K], [P], [V], [N],
    [MSTU], [MSTJ], [PARJ], ...), here the type [lund_rec], and draws from
    [RLU]; of the SOPHIA-side variables it writes [np] only, in
    [lund_frag]. *)
Class Jetset : Type := {
  lund_rec : Type;
(** the assignments to [P], [K] and [N] at the end of [lund_put] *)
lund_store : Z -> Z -> Q -> Q -> Q -> Q -> lund_rec -> lund_rec;
LUJOIN : Z -> list Z -> lund_rec -> res lund_rec;
(** [lund_frag(SQS)]: the value it leaves in [np] *)
lund_frag_run :
  Q -> lund_rec * Rlu.rlu_state -> res Z * (lund_rec * Rlu.rlu_state);
PLU : Z -> Z -> lund_rec -> Q;
KLU : Z -> Z -> lund_rec -> Z
}.

(** SOPHIA-side routines that are not embedded either, each with the
    variables it reads and writes: [DECPAR_nonZero] (reads [IDB] and the
    decay tables), [dec_proc2] and [RES_DECAY3] (resonance decay tables),
    [PO_SELSX2] (with [PO_RNDBET] and [PO_RNDGAM]). *)
Class Routines : Type := {
(** [DECPAR_nonZero(LA, P0)] under the flags [IDB]: [ND], [LL], [P_out] *)
DECPAR_nonZero :
  list Z -> Z -> list Q -> Rlu.rlu_state ->
  res (Z * list Z * list (list Q)) * Rlu.rlu_state;
(** [dec_proc2(x, IRES, L0)]: [IPROC] and [IRANGE] *)
dec_proc2 : Q -> Z -> Z -> Rlu.rlu_state -> res (Z * Z) * Rlu.rlu_state;
(** [RES_DECAY3(IRES, IPROC, IRANGE, s, L0)]: the two entries it writes
    into [LLIST] and [p] *)
RES_DECAY3 :
  Z -> Z -> Z -> Q -> Z -> list Z * list (list Q) * Rlu.rlu_state ->
  res unit * (list Z * list (list Q) * Rlu.rlu_state);
(** [PO_SELSX2(XMIN, XMAX, AS1, AS2)]: [XS1], [XS2], [isRejected] *)
PO_SELSX2 :
  list Q -> list Q -> Q -> Q -> Rlu.rlu_state ->
  res (list Q * list Q * bool) * Rlu.rlu_state
}.

Section Doubles.
Local Open Scope Q_scope.

(** [a < b], [a <= b], [a == b] on [double]s. *)
Definition fltb (a b : Q) : bool := negb (Qle_bool b a).
Definition fleb (a b : Q) : bool := Qle_bool a b.
Definition feqb (a b : Q) : bool := Qeq_bool a b.

(** [std::max(a, b)]: [(a < b) ? b : a]. *)
Definition fmax (a b : Q) : Q := if fltb a b then b else a.

(** [std::abs]. *)
Definition fabs (a : Q) : Q := Qabs a.
End Doubles.

(** ** Cross sections and the choice of the process *)

Module Sophia.
Section Model.
Context {libm : Libm} {tables : Tables} {jetset : Jetset} {routines : Routines}.
Local Open Scope Q_scope.

(** [probangle]: the value returned, or [None] when control reaches the
    end of the function, where a [std::runtime_error] is constructed but
    not thrown and nothing is returned. *)
Definition probangle (IRES L0 : Z) (z : Q) : option Q :=
  if ((IRES =? 4) || (IRES =? 5) || (IRES =? 2))%Z then Some 0.5
  else if (IRES =? 1)%Z then Some (0.636263 - 0.408790 * z * z)
  else if ((IRES =? 3) && (L0 =? 14))%Z then Some (0.673669 - 0.521007 * z * z)
  else if ((IRES =? 3) && (L0 =? 13))%Z then Some (0.739763 - 0.719288 * z * z)
  else if ((IRES =? 6) && (L0 =? 14))%Z then
    let q := z * z in Some (0.254005 + 1.427918 * q - 1.149888 * q * q)
  else if ((IRES =? 6) && (L0 =? 13))%Z then
    let q := z * z in Some (0.189855 + 2.582610 * q - 2.753625 * q * q)
  else if (IRES =? 7)%Z then Some (0.450238 + 0.149285 * z * z)
  else if (IRES =? 8)%Z then
    let q := z * z in Some (0.230034 + 1.859396 * q - 1.749161 * q * q)
  else if (IRES =? 9)%Z then
    let q := z * z in
    Some (0.397430 - 1.498240 * q + 5.880814 * q * q - 4.019252 * q * q * q)
  else None.

(** The values the enumerated branches of [probangle] return at [z]. *)
Definition probangle_branches (z : Q) : list Q :=
  let q := z * z in
  [ 0.5;
    0.636263 - 0.408790 * z * z;
    0.673669 - 0.521007 * z * z;
    0.739763 - 0.719288 * z * z;
    0.254005 + 1.427918 * q - 1.149888 * q * q;
    0.189855 + 2.582610 * q - 2.753625 * q * q;
    0.450238 + 0.149285 * z * z;
    0.230034 + 1.859396 * q - 1.749161 * q * q;
    0.397430 - 1.498240 * q + 5.880814 * q * q - 4.019252 * q * q * q ].

Definition Pl (x xth xmax alpha : Q) : Q :=
  if fltb x xth then 0
  else
    let a := alpha * xmax / xth in
    let prod1 := fpow ((x - xth) / (xmax - xth)) (a - alpha) in
    let prod2 := fpow (x / xmax) (- a) in
    prod1 * prod2.

(** [Ef].  The source ends in a fourth branch that throws; it is taken
    only when all three comparisons fail, which no rational does. *)
Definition Ef (x th w : Q) : Q :=
  let wth := w + th in
  if fleb x th then 0
  else if fltb th x && fltb x wth then (x - th) / w
  else 1.

Definition breitwigner (sigma_0 Gamma DMM eps_prime : Q) : Q :=
  let pm := 0.93827 in
  let s := pm * pm + 2 * pm * eps_prime in
  let gam2s := Gamma * Gamma * s in
  sigma_0 * (s / eps_prime / eps_prime) * gam2s /
  ((s - DMM * DMM) * (s - DMM * DMM) + gam2s).

Definition singleback (x : Q) : Q := 92.7 * Pl x 0.152 0.25 2.
Definition twoback (x : Q) : Q := 37.7 * Pl x 0.4 0.6 2.

(** The terms [crossection] computes before it selects one by [NDIR]. *)
Record xs_terms : Type := mkTerms {
  sig_res : list Q;
  cross_res : Q;
  cross_dir : Q;
  cross_dir1 : Q;
  cross_dir2 : Q;
  cross_frag2 : Q;
  cross_diffr : Q;
  cross_diffr1 : Q;
  cross_diffr2 : Q;
  cs_multidiff : Q;
  cs_multi : Q
}.

(** [SIG0[i] * (s / x / x) ...]: the resonance term of index [i] (0 .. 8)
    with its threshold factor. *)
Definition resonance_term (x : Q) (NL0 i : Z) : Q :=
  let AM2 := if (NL0 =? 13)%Z then 0.880351 else 0.882792 in
  let RATIOJ := if (NL0 =? 13)%Z then RATIOJp else RATIOJn in
  let BGAMMA := if (NL0 =? 13)%Z then BGAMMAp else BGAMMAn in
  let AMRES := if (NL0 =? 13)%Z then AMRESp else AMRESn in
  let WIDTH := if (NL0 =? 13)%Z then WIDTHp else WIDTHn in
  let SIG0 := 4.893089117 / AM2 * rd 0 RATIOJ i * rd 0 BGAMMA i in
  breitwigner SIG0 (rd 0 WIDTH i) (rd 0 AMRES i) x *
  (if (i =? 0)%Z then Ef x 0.152 0.17 else Ef x 0.15 0.38).

(** The body of [crossection] between the threshold test and the
    [switch], for [NL0] 13 or 14 and [s >= sth]. *)
Definition crossection_terms (x : Q) (NL0 : Z) : xs_terms :=
  let pm := rd 0 AM (NL0 - 1) in
  let s := pm * pm + 2 * pm * x in
  let low := fleb x 10 in
  let sig_res :=
    map (fun i => if low then resonance_term x NL0 i else 0)
        [0; 1; 2; 3; 4; 5; 6; 7; 8]%Z in
  let cross_res := fold_left Qplus sig_res 0 in
  let cross_dir1 :=
    if low then
      if fltb 0.1 x && fltb x 0.6 then
        singleback x + 40 * fexp (- (x - 0.29) * (x - 0.29) / 0.002)
        - 15 * fexp (- (x - 0.37) * (x - 0.37) / 0.002)
      else singleback x
    else 0 in
  let cross_dir2 := if low then twoback x else 0 in
  let cross_dir := if low then cross_dir1 + cross_dir2 else 0 in
  let cross_frag2 :=
    if (NL0 =? 13)%Z then 80.3 * Ef x 0.5 0.1 * fpow s (-0.34)
    else if (NL0 =? 14)%Z then 60.2 * Ef x 0.5 0.1 * fpow s (-0.34)
    else 0 in
  if fltb 0.85 x then
    let ss1 := (x - 0.85) / 0.69 in
    let ss2 :=
      if (NL0 =? 13)%Z then 29.3 * fpow s (-0.34) + 59.3 * fpow s 0.095
      else if (NL0 =? 14)%Z then 26.4 * fpow s (-0.34) + 59.3 * fpow s 0.095
      else 0 in
    let cs_multidiff := (1 - fexp (- ss1)) * ss2 in
    let cs_multi := 0.89 * cs_multidiff in
    let cross_diffr := 0.11 * cs_multidiff in
    let ss1 := fpow (x - 0.85) 0.75 / 0.64 in
    let ss2 := 74.1 * fpow x (-0.44) + 62 * fpow s 0.08 in
    let cs_tmp := 0.96 * (1 - fexp (- ss1)) * ss2 in
    let cross_diffr1 := 0.14 * cs_tmp in
    let cross_diffr2 := 0.013 * cs_tmp in
    let cs_delta := cross_frag2 - (cross_diffr1 + cross_diffr2 - cross_diffr) in
    let cross_frag2' := if fltb cs_delta 0 then 0 else cs_delta in
    let cs_multi' := if fltb cs_delta 0 then cs_multi + cs_delta else cs_multi in
    let cross_diffr' := cross_diffr1 + cross_diffr2 in
    let cs_multidiff' := cs_multi' + cross_diffr' in
    mkTerms sig_res cross_res cross_dir cross_dir1 cross_dir2 cross_frag2'
            cross_diffr' cross_diffr1 cross_diffr2 cs_multidiff' cs_multi'
  else
    mkTerms sig_res cross_res cross_dir cross_dir1 cross_dir2 cross_frag2
            0 0 0 0 0.

(** The [switch (NDIR)]. *)
Definition crossection_select (t : xs_terms) (NDIR : Z) : res Q :=
  if (NDIR =? 0)%Z then
    Ok (cross_res t + cross_dir t + cross_diffr t + cross_frag2 t)
  else if (NDIR =? 1)%Z then Ok (cross_res t)
  else if (NDIR =? 2)%Z then Ok (cross_res t + cross_dir t)
  else if (NDIR =? 3)%Z then
    Ok (cross_res t + cross_dir t + cs_multidiff t + cross_frag2 t)
  else if (NDIR =? 4)%Z then Ok (cross_dir t)
  else if (NDIR =? 5)%Z then Ok (cs_multi t)
  else if (NDIR =? 6)%Z then Ok (cross_res t + cross_dir2 t)
  else if (NDIR =? 7)%Z then Ok (cross_res t + cross_dir1 t)
  else if (NDIR =? 8)%Z then Ok (cross_res t + cross_dir t + cross_diffr1 t)
  else if (NDIR =? 9)%Z then Ok (cross_res t + cross_dir t + cross_diffr t)
  else if (NDIR =? 10)%Z then Ok (cross_diffr t)
  else if ((11 <=? NDIR) && (NDIR <=? 19))%Z then
    Ok (rd 0 (sig_res t) (NDIR - 11))
  else Throw "wrong input NDIR in crossection.f !".

Definition crossection (x : Q) (NDIR NL0 : Z) : res Q :=
  if (negb (NL0 =? 13) && negb (NL0 =? 14))%Z then
    Throw "crossection: particle ID incorrectly specified."
  else
    let sth := 1.1646 in
    let pm := rd 0 AM (NL0 - 1) in
    let s := pm * pm + 2 * pm * x in
    if fltb s sth then Ok 0
    else crossection_select (crossection_terms x NL0) NDIR.

(** [functs]: [(s - pm^2) * sigma]. *)
Definition functs (s : Q) (L0 : Z) : res Q :=
  let pm := 0.93827 in
  let factor := s - pm * pm in
  let epsprime := factor / 2 / pm in
  rbind (crossection epsprime 3 L0) (fun sigma_pg => Ok (factor * sigma_pg)).

(** *** The state of a [sophia_interface] object and of the statics *)

(** [IDB]: the decay-instability flag of each particle code;
    [np], [LLIST], [p]: the SOPHIA-side particle record ([p[5][2000]], row
    by row); [Ic]: the static counter of [gamma_h]; [rlu]: the statics of
    [RLU]; [lund]: the common blocks of the fragmentation code. *)
Record sophia : Type := mkSophia {
  IDB : list Z;
  np : Z;
  LLIST : list Z;
  p : list (list Q);
  Ic : Z;
  rlu : Rlu.rlu_state;
  lund : lund_rec
}.

Definition set_IDB (v : list Z) (s : sophia) : sophia :=
  mkSophia v (np s) (LLIST s) (p s) (Ic s) (rlu s) (lund s).
Definition set_np (v : Z) (s : sophia) : sophia :=
  mkSophia (IDB s) v (LLIST s) (p s) (Ic s) (rlu s) (lund s).
Definition set_LLIST (v : list Z) (s : sophia) : sophia :=
  mkSophia (IDB s) (np s) v (p s) (Ic s) (rlu s) (lund s).
Definition set_p (v : list (list Q)) (s : sophia) : sophia :=
  mkSophia (IDB s) (np s) (LLIST s) v (Ic s) (rlu s) (lund s).
Definition set_Ic (v : Z) (s : sophia) : sophia :=
  mkSophia (IDB s) (np s) (LLIST s) (p s) v (rlu s) (lund s).
Definition set_rlu (v : Rlu.rlu_state) (s : sophia) : sophia :=
  mkSophia (IDB s) (np s) (LLIST s) (p s) (Ic s) v (lund s).
Definition set_lund (v : lund_rec) (s : sophia) : sophia :=
  mkSophia (IDB s) (np s) (LLIST s) (p s) (Ic s) (rlu s) v.

(** [a[j][i]] and [a[j][i] = v] on a two-dimensional array. *)
Definition rd2 (a : list (list Q)) (j i : Z) : Q := rd 0 (rd [] a j) i.
Definition wr2 (a : list (list Q)) (j i : Z) (v : Q) : list (list Q) :=
  wr a j (wr (rd [] a j) i v).

(** A member function: it runs in a state and leaves one, also when it
    throws (the object keeps what was written before the exception). *)
Definition M (A : Type) : Type := sophia -> res A * sophia.

Definition ret {A : Type} (a : A) : M A := fun s => (Ok a, s).
Definition throw {A : Type} (msg : string) : M A := fun s => (Throw msg, s).
Definition diverge {A : Type} : M A := fun s => (Diverge, s).
Definition bind {A B : Type} (m : M A) (k : A -> M B) : M B :=
  fun s =>
    match m s with
    | (Ok a, s') => k a s'
    | (Throw msg, s') => (Throw msg, s')
    | (Diverge, s') => (Diverge, s')
    | (Undefined, s') => (Undefined, s')
    end.
Definition gets {A : Type} (f : sophia -> A) : M A := fun s => (Ok (f s), s).
Definition modify (f : sophia -> sophia) : M unit := fun s => (Ok tt, f s).
Definition lift {A : Type} (r : res A) : M A := fun s => (r, s).

Notation "x <- m ;; k" := (bind m (fun x => k))
  (at level 61, m at next level, right associativity).
Notation "' pat <- m ;; k" := (bind m (fun x => match x with pat => k end))
  (at level 61, pat pattern, m at next level, right associativity).
Notation "m ;;; k" := (bind m (fun _ => k))
  (at level 61, right associativity).

(** [for (int j = lo; j < hi; ++j) body], for a body that changes neither
    [j] nor [hi]; [n] passes are left. *)
Fixpoint for_loop (n : nat) (j : Z) (body : Z -> M unit) : M unit :=
  match n with
  | O => ret tt
  | S n' => body j ;;; for_loop n' (j + 1)%Z body
  end.
Definition for_range (lo hi : Z) (body : Z -> M unit) : M unit :=
  for_loop (Z.to_nat (hi - lo)) lo body.

(** [m] leaves the part [f] of the state as it found it, however it
    ends. *)
Definition preserves {A X : Type} (f : sophia -> X) (m : M A) : Prop :=
  forall s, f (snd (m s)) = f s.

(** The number of passes [RLU]'s loop is given; 99 are enough
    ([RluFacts.RLU_total]). *)
Definition RLU_FUEL : nat := 99.

(** [RNDM()] *)
Definition RNDM : M Q :=
  fun s =>
    match Rlu.RNDM RLU_FUEL (rlu s) with
    | Some (r, g) => (Ok (Rlu.to_double r), set_rlu g s)
    | None => (Diverge, s)
    end.

(** *** [check_event] *)

(** The sums over the entries [0 .. np - 1] with [|LLIST[j]| < 10000]:
    px, py, pz, E, charge, baryon number. *)
Fixpoint stable_sums (n : nat) (j : Z) (LL : list Z) (pp : list (list Q))
    (acc : Q * Q * Q * Q * Z * Z) : Q * Q * Q * Q * Z * Z :=
  match n with
  | O => acc
  | S n' =>
      let '(px, py, pz, ee, ichar, ibary) := acc in
      let l1 := Z.abs (rd 0%Z LL j) in
      let l := Z.rem (rd 0%Z LL j) 10000 in
      let acc' :=
        if (l1 <? 10000)%Z then
          let sgn := if (l <? 0)%Z then (-1)%Z else 1%Z in
          (px + rd2 pp 0 j, py + rd2 pp 1 j, pz + rd2 pp 2 j, ee + rd2 pp 3 j,
           (ichar + sgn * rd 0 ICHP (Z.abs l - 1))%Z,
           (ibary + sgn * rd 0 IBAR (Z.abs l - 1))%Z)
        else acc in
      stable_sums n' (j + 1)%Z LL pp acc'
  end.

(** [hasFailed] at the end of [check_event]. *)
Definition check_failed (s : sophia) (Esum PXsum PYsum PZsum : Q)
    (IQchr IQbar : Z) : bool :=
  let '(px, py, pz, ee, ichar, ibary) :=
    stable_sums (Z.to_nat (np s)) 0 (LLIST s) (p s) (0, 0, 0, 0, 0%Z, 0%Z) in
  let PLscale := Esum in
  let PTscale := 1 in
  negb (ichar =? IQchr)%Z
  || negb (ibary =? IQbar)%Z
  || fltb 1e-3 (fabs ((px - PXsum) / fmax PXsum PTscale))
  || fltb 1e-3 (fabs ((py - PYsum) / fmax PYsum PTscale))
  || fltb 1e-3 (fabs ((pz - PZsum) / fmax (fabs PZsum) PLscale))
  || fltb 1e-3 (fabs ((ee - Esum) / fmax Esum 1)).

Definition check_event (Ic_arg : Z) (Esum PXsum PYsum PZsum : Q)
    (IQchr IQbar : Z) : M unit :=
  failed <- gets (fun s => check_failed s Esum PXsum PYsum PZsum IQchr IQbar) ;;
  if failed then throw "check_event has failed critically" else ret tt.

(** *** [DECSIB] *)

Definition call_DECPAR_nonZero (L : Z) (P0 : list Q)
  : M (Z * list Z * list (list Q)) :=
  fun s =>
    let '(r, g) := DECPAR_nonZero (IDB s) L P0 (rlu s) in (r, set_rlu g s).

(** The body of [while (NN <= np)], for one [NN]. *)
Definition DECSIB_step (NN : Z) : M unit :=
  L <- gets (fun s => rd 0%Z (LLIST s) (NN - 1)) ;;
  if (L =? 0)%Z then throw "DECSIB: L is never supposed to be zero."
  else
    flag <- gets (fun s => rd 0%Z (IDB s) (Z.abs L - 1)) ;;
    if (0 <? flag)%Z then
      P0 <- gets (fun s => map (fun K => rd2 (p s) K (NN - 1)) [0; 1; 2; 3; 4]%Z) ;;
      '(ND, LL, P_out) <- call_DECPAR_nonZero L P0 ;;
      let sgn := if (L <? 0)%Z then (-1)%Z else 1%Z in
      modify (fun s => set_LLIST (wr (LLIST s) (NN - 1) (L + sgn * 10000)%Z) s) ;;;
      for_range 0 ND (fun J =>
        for_range 0 5 (fun K =>
          modify (fun s => set_p (wr2 (p s) K (np s + J) (rd2 P_out K J)) s)) ;;;
        modify (fun s => set_LLIST (wr (LLIST s) (np s + J) (rd 0%Z LL J)) s)) ;;;
      modify (fun s => set_np (np s + ND)%Z s)
    else ret tt.

(** [while (NN <= np) { ...; NN++; }]; the record grows as it is scanned,
    so the loop has no bound of its own. *)
Fixpoint DECSIB_loop (fuel : nat) (NN : Z) : M unit :=
  match fuel with
  | O => diverge
  | S fuel' =>
      n <- gets np ;;
      if (NN <=? n)%Z then DECSIB_step NN ;;; DECSIB_loop fuel' (NN + 1)%Z
      else ret tt
  end.

Definition DECSIB (fuel : nat) : M unit := DECSIB_loop fuel 1.

(** *** Kinematics *)

(** The fields [PX], [PY], [PZ], [P], [E] of the source's struct. *)
Record PO_ALTRA_output : Type := mkAltra {
  o_PX : Q; o_PY : Q; o_PZ : Q; o_P : Q; o_E : Q
}.

(** [PO_ALTRA]: an arbitrary Lorentz transformation. *)
Definition PO_ALTRA (GA BGX BGY BGZ PCX PCY PCZ EC : Q) : PO_ALTRA_output :=
  let EP := PCX * BGX + PCY * BGY + PCZ * BGZ in
  let PE := EP / (GA + 1) + EC in
  let PX := PCX + BGX * PE in
  let PY := PCY + BGY * PE in
  let PZ := PCZ + BGZ * PE in
  let P := fsqrt (PX * PX + PY * PY + PZ * PZ) in
  let E := GA * EC + EP in
  mkAltra PX PY PZ P E.

(** [PO_TRANS]: rotation around the y axis, then around the z axis. *)
Definition PO_TRANS (XO YO ZO CDE SDE CFE SFE : Q) : Q * Q * Q :=
  let X := CDE * CFE * XO - SFE * YO + SDE * CFE * ZO in
  let Y := CDE * SFE * XO + CFE * YO + SDE * SFE * ZO in
  let Z := - SDE * XO + CDE * ZO in
  (X, Y, Z).

Definition PO_XLAM (X Y Z : Q) : Q :=
  let YZ := Y - Z in
  let XLAM := X * X - 2 * X * (Y + Z) + YZ * YZ in
  let XLAM := if fltb XLAM 0 then - XLAM else XLAM in
  fsqrt XLAM.

(** [PO_MSHELL]: the two momenta put on their mass shells, [P1] and
    [P2]. *)
Definition PO_MSHELL (PA1 PA2 : list Q) (XM1 XM2 : Q) : list Q * list Q :=
  let PX := rd 0 PA1 0 + rd 0 PA2 0 in
  let PY := rd 0 PA1 1 + rd 0 PA2 1 in
  let PZ := rd 0 PA1 2 + rd 0 PA2 2 in
  let EE := rd 0 PA1 3 + rd 0 PA2 3 in
  let XMS := fsqrt (EE * EE - PX * PX - PY * PY - PZ * PZ) in
  let BGX := PX / XMS in
  let BGY := PY / XMS in
  let BGZ := PZ / XMS in
  let GAM := EE / XMS in
  let pao := PO_ALTRA GAM (- BGX) (- BGY) (- BGZ)
               (rd 0 PA1 0) (rd 0 PA1 1) (rd 0 PA1 2) (rd 0 PA1 3) in
  let PTOT1 := o_P pao in
  let P1 := [o_PX pao; o_PY pao; o_PZ pao; o_E pao] in
  let DEPS := 1e-5 in
  let PTOT1 := fmax DEPS PTOT1 in
  let COD := rd 0 P1 2 / PTOT1 in
  let SID := fsqrt ((1 - COD) * (1 + COD)) in
  let '(COF, SIF) :=
    if fltb 1e-5 (PTOT1 * SID) then
      let COF := rd 0 P1 0 / (SID * PTOT1) in
      let SIF := rd 0 P1 1 / (SID * PTOT1) in
      let ANORF := fsqrt (COF * COF + SIF * SIF) in
      (COF / ANORF, SIF / ANORF)
    else (1, 0) in
  let XM12 := XM1 * XM1 in
  let XM22 := XM2 * XM2 in
  let SS := XMS * XMS in
  let PCMP := PO_XLAM SS XM12 XM22 / (2 * XMS) in
  let EE1 := fsqrt (XM12 + PCMP * PCMP) in
  let EE2 := XMS - EE1 in
  let '(XX, YY, ZZ) := PO_TRANS 0 0 PCMP COD SID COF SIF in
  let pa1 := PO_ALTRA GAM BGX BGY BGZ XX YY ZZ EE1 in
  let pa2 := PO_ALTRA GAM BGX BGY BGZ (- XX) (- YY) (- ZZ) EE2 in
  ([o_PX pa1; o_PY pa1; o_PZ pa1; o_E pa1],
   [o_PX pa2; o_PY pa2; o_PZ pa2; o_E pa2]).

(** *** The choice of the process: [dec_inter3], [dec_res2] *)

(** The first part of [dec_inter3]: the total, replaced by 1 when it is
    zero, and the six ratios [prob1 .. prob6]. *)
Definition dec_inter3_probs (eps_prime : Q) (L0 : Z)
  : res (Q * (Q * Q * Q * Q * Q * Q)) :=
  rbind (crossection eps_prime 3 L0) (fun tot =>
  let tot := if feqb tot 0 then 1 else tot in
  rbind (crossection eps_prime 1 L0) (fun c1 =>
  rbind (crossection eps_prime 7 L0) (fun c7 =>
  rbind (crossection eps_prime 2 L0) (fun c2 =>
  rbind (crossection eps_prime 8 L0) (fun c8 =>
  rbind (crossection eps_prime 9 L0) (fun c9 =>
  rbind (crossection eps_prime 0 L0) (fun c0 =>
  Ok (tot, (c1 / tot, c7 / tot, c2 / tot, c8 / tot, c9 / tot, c0 / tot))))))))).

(** The chain of [if ... else if ...] on the number drawn. *)
Definition dec_inter3_branch (prob1 prob2 prob3 prob4 prob5 prob6 rn : Q)
  : res Z :=
  if fltb rn prob1 then Ok 6%Z
  else if fleb prob1 rn && fltb rn prob2 then Ok 2%Z
  else if fleb prob2 rn && fltb rn prob3 then Ok 3%Z
  else if fleb prob3 rn && fltb rn prob4 then Ok 1%Z
  else if fleb prob4 rn && fltb rn prob5 then Ok 4%Z
  else if fleb prob5 rn && fltb rn prob6 then Ok 5%Z
  else if fleb prob6 rn && fltb rn 1 then Ok 0%Z
  else if feqb rn 1 then Ok 0%Z
  else Throw "error in dec_inter3".

Definition dec_inter3 (eps_prime : Q) (L0 : Z) : M Z :=
  '(_, (prob1, prob2, prob3, prob4, prob5, prob6)) <-
    lift (dec_inter3_probs eps_prime L0) ;;
  rn <- RNDM ;;
  lift (dec_inter3_branch prob1 prob2 prob3 prob4 prob5 prob6 rn).

(** The mode of the first threshold, in the order given, that the draw
    falls under. *)
Definition first_under (rn : Q) (ths : list (Q * Z)) : option Z :=
  option_map snd (find (fun t => fltb rn (fst t)) ths).

(** The mode the specification gives a draw: that of the first threshold
    it falls under, and multipion production (mode 0) when it falls under
    none. *)
Definition mode_of_draw (rn : Q) (ths : list (Q * Z)) : Z :=
  match first_under rn ths with
  | Some m => m
  | None => 0%Z
  end.

(** The loop of [dec_res2] that fills [prob_sum]: the running sums of the
    resonance cross sections, [n] resonances left, [j] the next one. *)
Fixpoint dec_res2_sums (n : nat) (j : Z) (eps_prime : Q) (L0 : Z)
    (sumres : Q) (acc : list Q) : res (Q * list Q) :=
  match n with
  | O => Ok (sumres, acc)
  | S n' =>
      rbind (crossection eps_prime (j + 10) L0) (fun c =>
        let sumres := sumres + c in
        dec_res2_sums n' (j + 1)%Z eps_prime L0 sumres (acc ++ [sumres]))
  end.

(** The [do { ... } while (i < IRESMAX)] of [dec_res2]: [Some i] when it
    returns from inside the loop, [None] with the last [i] otherwise. *)
Fixpoint dec_res2_scan (n : nat) (i : Z) (prob : Q) (r sumres : Q)
    (prob_sum : list Q) (IRESMAX : Z) : option Z * Z :=
  match n with
  | O => (None, i)
  | S n' =>
      let i := (i + 1)%Z in
      let probold := prob in
      let prob := rd 0 prob_sum (i - 1) / sumres in
      if fleb probold r && fltb r prob then (Some i, i)
      else if (i <? IRESMAX)%Z
           then dec_res2_scan n' i prob r sumres prob_sum IRESMAX
           else (None, i)
  end.

Definition dec_res2 (eps_prime : Q) (IRESMAX L0 : Z) : M Z :=
  '(sumres, prob_sum) <-
    lift (dec_res2_sums (Z.to_nat IRESMAX) 1 eps_prime L0 0 []) ;;
  r <- RNDM ;;
  match dec_res2_scan (S (Z.to_nat IRESMAX)) 0 0 r sumres prob_sum IRESMAX with
  | (Some IRES, _) => ret IRES
  | (None, i) =>
      if feqb r 1 then ret i
      else throw "dec_res2: no resonance possible"
  end.

(** *** [sample_s] *)

(** One candidate of the rejection loop: [s = smin + RNDM() * (smax -
    smin)], [ps = functs(s, L0)], and the test of the [while]:
    [RNDM() * pmax > ps / sintegr1], true when the candidate is
    rejected. *)
Definition sample_s_candidate (smin smax pmax sintegr1 : Q) (L0 : Z)
  : M (Q * bool) :=
  r <- RNDM ;;
  let s := smin + r * (smax - smin) in
  ps <- lift (functs s L0) ;;
  r' <- RNDM ;;
  ret (s, fltb (ps / sintegr1) (r' * pmax)).

(** The rejection loop of [sample_s]: the [s] it returns and the number
    [i_rept] of candidates drawn. *)
Fixpoint sample_s_reject (fuel : nat) (i_rept : Z) (s : Q)
    (smin smax pmax sintegr1 : Q) (L0 : Z) : M (Q * Z) :=
  match fuel with
  | O => diverge
  | S fuel' =>
      if (100000 <=? i_rept)%Z then ret (s, i_rept)
      else
        '(s, rejected) <- sample_s_candidate smin smax pmax sintegr1 L0 ;;
        let i_rept := (i_rept + 1)%Z in
        if (rejected : bool)
        then sample_s_reject fuel' i_rept s smin smax pmax sintegr1 L0
        else ret (s, i_rept)
  end.

(** The passes the rejection loop can make: 100000 that draw, and the one
    that finds the cap reached. *)
Definition REJECT_FUEL : nat := Z.to_nat 100001.

(** A run of the loop from [i_rept = i]: the candidates are drawn one
    after the other; the run ends with the first one that passes the test,
    or with the one that brings [i_rept] to 100000, whether it passes or
    not.  [rejection_run i st s k st'] is such a run that returns [s] with
    [i_rept = k]. *)
Inductive rejection_run (smin smax pmax sintegr1 : Q) (L0 : Z)
  : Z -> sophia -> Q -> Z -> sophia -> Prop :=
| run_accept : forall i st c st',
    (i < 100000)%Z ->
    sample_s_candidate smin smax pmax sintegr1 L0 st = (Ok (c, false), st') ->
    rejection_run smin smax pmax sintegr1 L0 i st c (i + 1) st'
| run_give_up : forall st c st',
    sample_s_candidate smin smax pmax sintegr1 L0 st = (Ok (c, true), st') ->
    rejection_run smin smax pmax sintegr1 L0 99999 st c 100000 st'
| run_reject : forall i st c st1 s k st',
    (i + 1 < 100000)%Z ->
    sample_s_candidate smin smax pmax sintegr1 L0 st = (Ok (c, true), st1) ->
    rejection_run smin smax pmax sintegr1 L0 (i + 1) st1 s k st' ->
    rejection_run smin smax pmax sintegr1 L0 i st s k st'.

Definition sample_s (eps : Q) (L0 : Z) (Ein : Q) : M Q :=
  let xmp := rd 0 AM (L0 - 1) in
  let Pp := fsqrt (Ein * Ein - xmp * xmp) in
  let smin := 1.1646 in
  let smax := fmax smin (xmp * xmp + 2 * eps * (Ein + Pp)) in
  if fleb (smax - smin) 1e-8 then
    r <- RNDM ;; ret (smin + r * 1e-6)
  else
    let s0 := 10 in
    sintegr1 <- lift (gaussInt (fun s => functs s L0) smin s0) ;;
    sintegr2 <- lift (gaussInt (fun s => functs s L0) s0 smax) ;;
    nmethod <-
      (if fleb smax s0 then ret 1%Z
       else
         let quo := sintegr1 / (sintegr1 + sintegr2) in
         r <- RNDM ;; ret (if fleb r quo then 1%Z else 2%Z)) ;;
    if (nmethod =? 1)%Z then
      let pmax := 1300 / sintegr1 in
      '(s, _) <- sample_s_reject REJECT_FUEL 0 0 smin smax pmax sintegr1 L0 ;;
      ret s
    else if (nmethod =? 2)%Z then
      r4 <- RNDM ;;
      let beta := 2.04 in
      let betai := 1 / beta in
      let term1 := r4 * fpow smax beta in
      let term2 := (r4 - 1) * fpow s0 beta in
      ret (fpow (term1 - term2) betai)
    else throw "error in function sample_s".

(** *** [scatterangle], [valences] *)

(** [do { ... } while (true)] of [scatterangle]. *)
Fixpoint scatterangle_loop (fuel : nat) (IRES L0 LA LB : Z) : M Q :=
  match fuel with
  | O => diverge
  | S fuel' =>
      r <- RNDM ;;
      let cosAngle := 2 * (r - 0.5) in
      prob <-
        (if (((LA =? 13) || (LA =? 14)) && (6 <=? LB) && (LB <=? 8))%Z then
           match probangle IRES L0 cosAngle with
           | Some v => ret v
           | None => lift Undefined
           end
         else ret 0.5) ;;
      r <- RNDM ;;
      if fleb r prob then ret cosAngle
      else scatterangle_loop fuel' IRES L0 LA LB
  end.

Definition scatterangle (fuel : nat) (IRES L0 : Z) : M Q :=
  LA <- gets (fun s => rd 0%Z (LLIST s) 0) ;;
  LB <- gets (fun s => rd 0%Z (LLIST s) 1) ;;
  scatterangle_loop fuel IRES L0 LA LB.

(** [valences]: the two flavour codes. *)
Definition valences (ip : Z) : M (Z * Z) :=
  '(ival1, ival2) <-
    (if (ip =? 1)%Z then
       r <- RNDM ;; ret (if fltb 0.2 r then (1, -1)%Z else (2, -2)%Z)
     else if (ip =? 6)%Z then
       r <- RNDM ;; ret (if fltb 0.5 r then (1, -1)%Z else (2, -2)%Z)
     else if (ip =? 7)%Z then ret (1, -2)%Z
     else if (ip =? 8)%Z then ret (2, -1)%Z
     else if (ip =? 13)%Z then
       Xi <- RNDM ;;
       ret (if fltb Xi 0.3333 then (12, 1)%Z
            else if fltb Xi 0.6666 then (21, 1)%Z else (11, 2)%Z)
     else if (ip =? 14)%Z then
       Xi <- RNDM ;;
       ret (if fltb Xi 0.3333 then (12, 2)%Z
            else if fltb Xi 0.6666 then (21, 2)%Z else (22, 1)%Z)
     else ret (0, 0)%Z) ;;
  if (ip <? 13)%Z then
    r <- RNDM ;; ret (if fltb r 0.5 then (ival2, ival1) else (ival1, ival2))
  else ret (ival1, ival2).

(** *** [DECPAR_zero] *)

(** A loop whose body draws random numbers, over the indices [l], with
    the local variables [acc]. *)
Fixpoint foldM {S : Type} (body : Z -> S -> M S) (l : list Z) (acc : S) : M S :=
  match l with
  | [] => ret acc
  | i :: l' => acc' <- body i acc ;; foldM body l' acc'
  end.

(** The lambda [PAWT]: the c.m.s. momentum of a two-particle decay. *)
Definition PAWT (A B C : Q) : Q :=
  fsqrt ((A * A - (B + C) * (B + C)) * (A * A - (B - C) * (B - C))) / (2 * A).

Definition FACN : list Q := [2; 5; 15; 60; 250; 1500; 12000; 120000].

(** A [double [5][10]] of zeros. *)
Definition zeros_5_10 : list (list Q) := repeat (repeat 0 10) 5.

(** [for (IL2 = IL1 - 1; IL2 > 0; --IL2) { IL2tmp = IL2; if (RSAV <=
    RORD[IL2 - 1]) break; RORD[IL2] = RORD[IL2 - 1]; }]: [RORD] and
    [IL2tmp] after it. *)
Fixpoint rord_shift (l : list Z) (RSAV : Q) (RORD : list Q) (IL2tmp : Z)
  : list Q * Z :=
  match l with
  | [] => (RORD, IL2tmp)
  | IL2 :: l' =>
      if fleb RSAV (rd 0 RORD (IL2 - 1)) then (RORD, IL2)
      else rord_shift l' RSAV (wr RORD IL2 (rd 0 RORD (IL2 - 1))) IL2
  end.

(** The block "Boost back for rapidly moving particle" of [DECPAR_zero]
    (lines 1338-1350), entered when [MBST == 1].  The statement in its
    inner loop, [P_out[J][I] + GA * (...) * BE[J];], assigns nothing: its
    value is computed and dropped, so only row 3 is written. *)
Definition boost_back_zero (P0 : list Q) (ND : Z) (P_out : list (list Q))
  : list (list Q) :=
  let BE := map (fun J => rd 0 P0 J / rd 0 P0 3) [0; 1; 2]%Z in
  let GA := rd 0 P0 3 / rd 0 P0 4 in
  fold_left
    (fun P_out I =>
       let BEP := rd 0 BE 0 * rd2 P_out 0 I + rd 0 BE 1 * rd2 P_out 1 I
                  + rd 0 BE 2 * rd2 P_out 2 I in
       let P_out :=
         fold_left
           (fun P_out J =>
              let _ := rd2 P_out J I
                       + GA * (GA * BEP / (1 + GA) + rd2 P_out 3 I) * rd 0 BE J in
              P_out)
           [0; 1; 2]%Z P_out in
       wr2 P_out 3 I (GA * (rd2 P_out 3 I + BEP)))
    (range 0 ND) P_out.

(** The same block as [DECPAR_nonZero] has it (lines 1539-1551), with
    [+=]. *)
Definition boost_back_nonZero (P0 : list Q) (ND : Z) (P_out : list (list Q))
  : list (list Q) :=
  let BE := map (fun J => rd 0 P0 J / rd 0 P0 3) [0; 1; 2]%Z in
  let GA := rd 0 P0 3 / rd 0 P0 4 in
  fold_left
    (fun P_out I =>
       let BEP := rd 0 BE 0 * rd2 P_out 0 I + rd 0 BE 1 * rd2 P_out 1 I
                  + rd 0 BE 2 * rd2 P_out 2 I in
       let P_out :=
         fold_left
           (fun P_out J =>
              wr2 P_out J I
                (rd2 P_out J I
                 + GA * (GA * BEP / (1 + GA) + rd2 P_out 3 I) * rd 0 BE J))
           [0; 1; 2]%Z P_out in
       wr2 P_out 3 I (GA * (rd2 P_out 3 I + BEP)))
    (range 0 ND) P_out.

(** One pass of [do { ... } while (repeat240)]: whether it ends in
    [repeat240 = true; continue;], and the arrays it leaves. *)
Definition DECPAR_zero_pass (goto280 : bool) (MAT MBST : Z) (P0 : list Q)
    (ND : Z) (PS WWTMAX : Q) (P_out PV : list (list Q)) (RORD : list Q)
  : M (bool * list (list Q) * list (list Q) * list Q) :=
  '(rejected, PV, RORD) <-
    (if negb goto280 then
       let RORD := wr RORD 0 1 in
       RORD <- foldM (fun IL1 RORD =>
                 RSAV <- RNDM ;;
                 let '(RORD, IL2tmp) :=
                   rord_shift (range_down (IL1 - 1) 0) RSAV RORD 0 in
                 ret (wr RORD IL2tmp RSAV))
               (range 2 ND) RORD ;;
       let RORD := wr RORD (ND - 1) 0 in
       let '(PV, WT) :=
         fold_left
           (fun '(PV, WT) IL =>
              let PV :=
                wr2 PV 4 (IL - 1)
                  (rd2 PV 4 IL + rd2 P_out 4 (IL - 1)
                   + (rd 0 RORD (IL - 1) - rd 0 RORD IL) * (rd2 PV 4 0 - PS)) in
              (PV, WT * PAWT (rd2 PV 4 (IL - 1)) (rd2 PV 4 IL) (rd2 P_out 4 (IL - 1))))
           (range_down (ND - 1) 0) (PV, 1) in
       r <- RNDM ;;
       ret (fltb WT (r * WWTMAX), PV, RORD)
     else ret (false, PV, RORD)) ;;
  if (rejected : bool) then ret (true, P_out, PV, RORD)
  else
    '(P_out, PV) <-
      foldM (fun IL '(P_out, PV) =>
               let PA := PAWT (rd2 PV 4 (IL - 1)) (rd2 PV 4 IL) (rd2 P_out 4 (IL - 1)) in
               r1 <- RNDM ;;
               let UE2 := 2 * r1 - 1 in
               r2 <- RNDM ;;
               let PHI := 2 * 3.1415927 * r2 in
               let UT := fsqrt (1 - UE2 * UE2) in
               let UE := [UT * fcos PHI; UT * fsin PHI; UE2] in
               let '(P_out, PV) :=
                 fold_left
                   (fun '(P_out, PV) J =>
                      (wr2 P_out J (IL - 1) (PA * rd 0 UE J),
                       wr2 PV J IL (- PA * rd 0 UE J)))
                   [0; 1; 2]%Z (P_out, PV) in
               let P_out :=
                 wr2 P_out 3 (IL - 1)
                   (fsqrt (PA * PA + rd2 P_out 4 (IL - 1) * rd2 P_out 4 (IL - 1))) in
               let PV :=
                 wr2 PV 3 IL (fsqrt (PA * PA + rd2 PV 4 IL * rd2 PV 4 IL)) in
               ret (P_out, PV))
            (range 1 ND) (P_out, PV) ;;
    let P_out :=
      fold_left (fun P_out J => wr2 P_out J (ND - 1) (rd2 PV J (ND - 1)))
                [0; 1; 2; 3]%Z P_out in
    let P_out :=
      fold_left
        (fun P_out IL =>
           let BE := map (fun J => rd2 PV J (IL - 1) / rd2 PV 3 (IL - 1)) [0; 1; 2]%Z in
           let GA := rd2 PV 3 (IL - 1) / rd2 PV 4 (IL - 1) in
           fold_left
             (fun P_out I =>
                let BEP :=
                  rd 0 BE 0 * rd2 P_out 0 (I - 1) + rd 0 BE 1 * rd2 P_out 1 (I - 1)
                  + rd 0 BE 2 * rd2 P_out 2 (I - 1) in
                let P_out :=
                  fold_left
                    (fun P_out J =>
                       wr2 P_out J (I - 1)
                         (rd2 P_out J (I - 1)
                          + GA * (GA * BEP / (1 + GA) + rd2 P_out 3 (I - 1)) * rd 0 BE J))
                    [0; 1; 2]%Z P_out in
                wr2 P_out 3 (I - 1) (GA * (rd2 P_out 3 (I - 1) + BEP)))
             (range IL (ND + 1)) P_out)
        (range_down (ND - 1) 0) P_out in
    if (MAT =? 1)%Z then
      let F1 := rd2 P_out 3 1 * rd2 P_out 3 2 - rd2 P_out 0 1 * rd2 P_out 0 2
                - rd2 P_out 1 1 * rd2 P_out 1 2 - rd2 P_out 2 1 * rd2 P_out 2 2 in
      let WT :=
        if (MBST =? 1)%Z then rd 0 P0 4 * rd2 P_out 3 0 * F1
        else if (MBST =? 0)%Z then
          F1 * (rd2 P_out 3 0 * rd 0 P0 3 - rd2 P_out 0 0 * rd 0 P0 0
                - rd2 P_out 1 0 * rd 0 P0 1 - rd2 P_out 2 0 * rd 0 P0 2)
        else 0 in
      let WTMAX := fpow (rd 0 P0 4) 4 / 16 in
      r <- RNDM ;;
      ret (fltb WT (r * WTMAX), P_out, PV, RORD)
    else ret (false, P_out, PV, RORD).

(** [do { ... } while (repeat240)].  A pass that is repeated has left
    [goto280] false. *)
Fixpoint DECPAR_zero_loop (fuel : nat) (goto280 : bool) (MAT MBST : Z)
    (P0 : list Q) (ND : Z) (PS WWTMAX : Q) (P_out PV : list (list Q))
    (RORD : list Q) : M (list (list Q)) :=
  match fuel with
  | O => diverge
  | S fuel' =>
      '(repeat240, P_out', PV', RORD') <-
        DECPAR_zero_pass goto280 MAT MBST P0 ND PS WWTMAX P_out PV RORD ;;
      if (repeat240 : bool) then
        DECPAR_zero_loop fuel' false MAT MBST P0 ND PS WWTMAX P_out' PV' RORD'
      else ret P_out'
  end.

(** [DECPAR_zero(P0, ND, LL)]: the array [P_out], of which the caller
    reads the columns below [ND]. *)
Definition DECPAR_zero (fuel : nat) (P0 : list Q) (ND : Z) (LL : list Z)
  : M (list (list Q)) :=
  let MAT := 0%Z in
  let MBST := 0%Z in
  let '(P_out, PV, PS) :=
    fold_left
      (fun '(P_out, PV, PS) J =>
         let m := rd 0 AM (Z.abs (rd 0%Z LL J) - 1) in
         (wr2 P_out 4 J m, wr2 PV 4 J m, PS + m))
      (range 0 ND) (zeros_5_10, zeros_5_10, 0) in
  let PV := fold_left (fun PV J => wr2 PV J 0 (rd 0 P0 J)) [0; 1; 2; 3]%Z PV in
  let PV := wr2 PV 4 0 (rd 0 P0 4) in
  let goto280 := (ND =? 2)%Z in
  if negb goto280 && (ND =? 1)%Z then
    ret (fold_left (fun P_out J => wr2 P_out J 0 (rd 0 P0 J)) [0; 1; 2; 3]%Z P_out)
  else
    let WWTMAX :=
      if negb goto280 then
        let WWTMAX := 1 / rd 0 FACN (ND - 3) in
        let PMAX := rd2 PV 4 0 - PS + rd2 P_out 4 (ND - 1) in
        let '(_, _, WWTMAX) :=
          fold_left
            (fun '(PMAX, PMIN, WWTMAX) IL =>
               let PMAX := PMAX + rd2 P_out 4 (IL - 1) in
               let PMIN := PMIN + rd2 P_out 4 IL in
               (PMAX, PMIN, WWTMAX * PAWT PMAX PMIN (rd2 P_out 4 (IL - 1))))
            (range_down (ND - 1) 0) (PMAX, 0, WWTMAX) in
        WWTMAX
      else 0 in
    P_out <- DECPAR_zero_loop fuel goto280 MAT MBST P0 ND PS WWTMAX P_out PV
               (repeat 0 10) ;;
    ret (if (MBST =? 1)%Z then boost_back_zero P0 ND P_out else P_out).

(** *** The interface to the fragmentation code *)

Definition ITABLE : list Z :=
  [22; -11; 11; -13; 13; 111; 211; -211; 321; -321;
   130; 310; 2212; 2112; 12; -12; 14; -14; -99999999; -99999999;
   311; -311; 221; 331; 213; -213; 113; 323; -323; 313;
   -313; 223; 333; 3222; 3212; 3112; 3322; 3312; 3122; 2224;
   2214; 2114; 1114; 3224; 3214; 3114; 3324; 3314; 3334]%Z.

(** [for (i = 0; i < 49; ++i) if (IS == ITABLE[i]) return (i + 1) * IC;] *)
Fixpoint ICON_lookup (t : list Z) (i IS IC : Z) : option Z :=
  match t with
  | [] => None
  | x :: t' => if (IS =? x)%Z then Some ((i + 1) * IC)%Z
               else ICON_lookup t' (i + 1)%Z IS IC
  end.

Definition ICON_PDG_SIB (ID : Z) : Z :=
  let IDPDG := ID in
  let IDA := Z.abs ID in
  let '(IS, IC) :=
    if (1000 <? IDA)%Z then (IDA, if (IDPDG <? 0)%Z then (-1)%Z else 1%Z)
    else (IDPDG, 1%Z) in
  match ICON_lookup ITABLE 0 IS IC with
  | Some v => v
  | None => if (IDPDG =? 80000)%Z then 13%Z else 0%Z
  end.

Definition lund_put (I IFL : Z) (PX PY PZ EE : Q) : M unit :=
  let put (Il : Z) : M unit :=
    modify (fun s => set_lund (lund_store I Il PX PY PZ EE (lund s)) s) in
  if (IFL =? 1)%Z then put 2%Z
  else if (IFL =? -1)%Z then put (-2)%Z
  else if (IFL =? 2)%Z then put 1%Z
  else if (IFL =? -2)%Z then put (-1)%Z
  else if (IFL =? 11)%Z then put 2203%Z
  else if (IFL =? 12)%Z then put 2101%Z
  else if (IFL =? 21)%Z then put 2103%Z
  else if (IFL =? 22)%Z then put 1103%Z
  else throw "lund_put: unknown flavor code".

Definition call_LUJOIN (NJOIN : Z) (IJOIN : list Z) : M unit :=
  fun s =>
    match LUJOIN NJOIN IJOIN (lund s) with
    | Ok l => (Ok tt, set_lund l s)
    | Throw msg => (Throw msg, s)
    | Diverge => (Diverge, s)
    | Undefined => (Undefined, s)
    end.

(** [lund_frag(SQS)]: it leaves the particle count, or a negative number
    when the event was not accepted, in [np]. *)
Definition lund_frag (SQS : Q) : M unit :=
  fun s =>
    let '(r, (l, g)) := lund_frag_run SQS (lund s, rlu s) in
    let s := set_rlu g (set_lund l s) in
    match r with
    | Ok n => (Ok tt, set_np n s)
    | Throw msg => (Throw msg, s)
    | Diverge => (Diverge, s)
    | Undefined => (Undefined, s)
    end.

(** [for (i = 0; i < np; ++i) { lgo = lund_get(i + 1); p[.][i] = ...;
    LLIST[i] = lgo.IFL; }] *)
Definition take_fragments : M unit :=
  n <- gets np ;;
  for_range 0 n (fun i =>
    modify (fun s =>
      let l := lund s in
      let pp := p s in
      let pp := wr2 pp 0 i (PLU (i + 1) 1 l) in
      let pp := wr2 pp 1 i (PLU (i + 1) 2 l) in
      let pp := wr2 pp 2 i (PLU (i + 1) 3 l) in
      let pp := wr2 pp 3 i (PLU (i + 1) 4 l) in
      let pp := wr2 pp 4 i (PLU (i + 1) 5 l) in
      set_LLIST (wr (LLIST s) i (ICON_PDG_SIB (KLU (i + 1) 8 l))) (set_p pp s))).

(** *** [gamma_h] *)

(** [do { pt = ptu * sqrt(-log(max(1.e-10, RNDM()))); } while (pt >= ee);] *)
Fixpoint sample_pt (fuel : nat) (ptu ee : Q) : M Q :=
  match fuel with
  | O => diverge
  | S fuel' =>
      r <- RNDM ;;
      let pt := ptu * fsqrt (- flog (fmax 1e-10 r)) in
      if fleb ee pt then sample_pt fuel' ptu ee else ret pt
  end.

(** The kinematics shared, line for line, by the diffractive branch
    ([margin] 1.e-2, slope [b = 6.5 + 2 alphap log(S)]) and the direct
    branch ([margin] 1.e-3, [b = 12]): the range of t, the sampled t, the
    two final momenta, and [DECSIB]. *)
Definition gamma_h_two_body (fuel : nat) (Ecm : Q) (ip1 ip2 ipa ipb : Z)
    (margin b : Q) : M unit :=
  let am1 := rd 0 AM (ip1 - 1) in
  let am2 := rd 0 AM (ip2 - 1) in
  let am_a := rd 0 AM (ipa - 1) in
  let am_b := rd 0 AM (ipb - 1) in
  let am_a := if fleb (Ecm - margin) (am_a + am_b) then Ecm - am_b - margin else am_a in
  let e1 := 0.5 * (Ecm + am1 * am1 / Ecm - am2 * am2 / Ecm) in
  let pcm1 :=
    if fltb (100 * am1) e1 then e1 - 0.5 * am1 * am1 / e1
    else fsqrt ((e1 - am1) * (e1 + am1)) in
  let e3 := 0.5 * (Ecm + am_a * am_a / Ecm - am_b * am_b / Ecm) in
  let pcm3 :=
    if fltb (100 * am_a) e3 then e3 - 0.5 * am_a * am_a / e3
    else fsqrt ((e3 - am_a) * (e3 + am_a)) in
  let base :=
    fpow ((am1 * am1 - am_a * am_a - am2 * am2 + am_b * am_b) / (2 * Ecm)) 2 in
  let t0 := base - (pcm1 - pcm3) * (pcm1 - pcm3) - 0.0001 in
  let t1 := base - (pcm1 + pcm3) * (pcm1 + pcm3) + 0.0001 in
  r <- RNDM ;;
  let t := 1 / b * flog ((fexp (b * t0) - fexp (b * t1)) * r + fexp (b * t1)) in
  let pl := (2 * e1 * e3 + t - am1 * am1 - am_a * am_a) / (2 * pcm1) in
  let pt := (pcm3 - pl) * (pcm3 + pl) in
  let '(pl, pt) :=
    if fltb pt 0 then
      let sgn := if fltb pl 0 then -1 else 1 in (pcm3 * sgn, 1e-6)
    else (pl, fsqrt pt) in
  r <- RNDM ;;
  let phi := 6.28318530717959 * r in
  modify (fun s =>
    let LL := wr (wr (LLIST s) 0 ipa) 1 ipb in
    let pp := p s in
    let pp := wr2 pp 3 0 e3 in
    let pp := wr2 pp 0 0 (fsin phi * pt) in
    let pp := wr2 pp 1 0 (fcos phi * pt) in
    let pp := wr2 pp 2 0 pl in
    let pp := wr2 pp 4 0 am_a in
    let pp := wr2 pp 0 1 (- rd2 pp 0 0) in
    let pp := wr2 pp 1 1 (- rd2 pp 1 0) in
    let pp := wr2 pp 2 1 (- rd2 pp 2 0) in
    let pp := wr2 pp 3 1 (Ecm - rd2 pp 3 0) in
    let pp := wr2 pp 4 1 am_b in
    set_np 2 (set_p pp (set_LLIST LL s))) ;;;
  DECSIB fuel.

(** How a pass through [do { ... } while (repeat100)] ends: with
    [repeat100] set; in the [return] of [Imode == 5]; or at the end of the
    body, [imul] counted. *)
Inductive pass_end : Type :=
| Repeat100
| Returned
| Passed (imul : Z).

(** [for (i = 0; i < 1000; ++i)] in the reggeon branch: the flavours, or
    [None] when the thousandth pair does not match either. *)
Fixpoint reggeon_valences (n : nat) (ip1 ip2 : Z) : M (option (Z * Z * Z * Z)) :=
  match n with
  | O => ret None
  | S n' =>
      '(Ifl1a, Ifl1b) <- valences ip1 ;;
      '(Ifl2a, Ifl2b) <- valences ip2 ;;
      if (Ifl1b =? - Ifl2b)%Z then ret (Some (Ifl1a, Ifl1b, Ifl2a, Ifl2b))
      else reggeon_valences n' ip1 ip2
  end.

(** What follows [lund_frag(Ecm)] in the reggeon branch. *)
Definition reggeon_after_frag : M bool :=
  n <- gets np ;;
  if (n <? 0)%Z then modify (set_np 0) ;;; ret true
  else take_fragments ;;; ret false.

(** What follows [lund_frag(Ecm)] in the pomeron branch: [repeat100] and
    the new [prob_reg]. *)
Definition pomeron_after_frag (prob_reg : Q) : M (bool * Q) :=
  n <- gets np ;;
  if (n <? 0)%Z then modify (set_np 0) ;;; ret (true, prob_reg + 0.1)
  else take_fragments ;;; ret (false, prob_reg).

(** The reggeon branch: one string. *)
Definition reggeon (fuel : nat) (Ecm ptu : Q) (ip1 ip2 : Z) : M bool :=
  v <- reggeon_valences 1000 ip1 ip2 ;;
  match v with
  | None => ret true
  | Some (Ifl1a, Ifl1b, Ifl2a, Ifl2b) =>
      modify (set_np 0) ;;;
      let ee := Ecm / 2 in
      pt <- sample_pt fuel ptu ee ;;
      r <- RNDM ;;
      let phi := 6.2831853 * r in
      let px := pt * fcos phi in
      let py := pt * fsin phi in
      let pz := fsqrt (ee * ee - px * px - py * py) in
      lund_put 1 Ifl1a px py pz ee ;;;
      lund_put 2 Ifl2a (- px) (- py) (- pz) ee ;;;
      call_LUJOIN 2 [1; 2; 0; 0]%Z ;;;
      lund_frag Ecm ;;;
      reggeon_after_frag
  end.

(** One string of the pomeron branch: its two ends, from the momentum
    fractions [x1] and [x2]. *)
Definition pomeron_string (fuel : nat) (Ecm ptu x1 x2 : Q) : M (list Q * list Q) :=
  let ee := fsqrt (x1 * x2) * Ecm / 2 in
  pt <- sample_pt fuel ptu ee ;;
  r <- RNDM ;;
  let phi := 6.2831853 * r in
  let px := pt * fcos phi in
  let py := pt * fsin phi in
  let PA1 := [px; py; x1 * Ecm / 2; x1 * Ecm / 2] in
  let PA2 := [- px; - py; - x2 * Ecm / 2; - (- x2 * Ecm / 2)] in
  ret (PO_MSHELL PA1 PA2 0 0).

Definition call_PO_SELSX2 (XMIN XMAX : list Q) (AS1 AS2 : Q)
  : M (list Q * list Q * bool) :=
  fun s =>
    let '(r, g) := PO_SELSX2 XMIN XMAX AS1 AS2 (rlu s) in (r, set_rlu g s).

(** The pomeron branch: two strings. *)
Definition pomeron (fuel : nat) (Ecm ptu as1 as2 prob_reg : Q) (ip1 ip2 : Z)
  : M (bool * Q) :=
  '(Ifl1a, Ifl1b) <- valences ip1 ;;
  '(Ifl2a, Ifl2b) <- valences ip2 ;;
  let '(Ifl2a, Ifl2b) :=
    if (Ifl1a * Ifl2a <? 0)%Z then (Ifl2b, Ifl2a) else (Ifl2a, Ifl2b) in
  let pl1 := 1 + as1 - as2 in
  let ps1 := 0.25 * pl1 * pl1 - as1 in
  if fleb ps1 0 then ret (true, 1)
  else
    let ps1 := fsqrt ps1 in
    let xmi0 := 0.5 * pl1 - ps1 in
    let xma0 := 0.5 * pl1 + ps1 in
    let pl2 := 1 + as2 - as1 in
    let ps2 := 0.25 * pl2 * pl2 - as2 in
    if fleb ps2 0 then ret (true, 1)
    else
      let ps2 := fsqrt ps2 in
      let xmi1 := 0.5 * pl2 - ps2 in
      let xma1 := 0.5 * pl2 + ps2 in
      if fleb (xma0 + 0.05) xmi0 || fleb (xma1 + 0.05) xmi1 then ret (true, 1)
      else
        '(xs1, xs2, isRejected) <- call_PO_SELSX2 [xmi0; xmi1] [xma0; xma1] as1 as2 ;;
        if (isRejected : bool) then ret (true, 1)
        else
          modify (set_np 0) ;;;
          '(P1, P2) <- pomeron_string fuel Ecm ptu (rd 0 xs1 0) (rd 0 xs2 0) ;;
          lund_put 1 Ifl1a (rd 0 P1 0) (rd 0 P1 1) (rd 0 P1 2) (rd 0 P1 3) ;;;
          lund_put 2 Ifl2a (rd 0 P2 0) (rd 0 P2 1) (rd 0 P2 2) (rd 0 P2 3) ;;;
          call_LUJOIN 2 [1; 2; 0; 0]%Z ;;;
          '(P1, P2) <- pomeron_string fuel Ecm ptu (rd 0 xs1 1) (rd 0 xs2 1) ;;
          lund_put 3 Ifl1b (rd 0 P1 0) (rd 0 P1 1) (rd 0 P1 2) (rd 0 P1 3) ;;;
          lund_put 4 Ifl2b (rd 0 P2 0) (rd 0 P2 1) (rd 0 P2 2) (rd 0 P2 3) ;;;
          call_LUJOIN 2 [3; 4; 0; 0]%Z ;;;
          lund_frag Ecm ;;;
          pomeron_after_frag prob_reg.

(** "leading baryon/meson effect": whether the loop sets [repeat100]. *)
Fixpoint leading_effect (l : list Z) (Ecm : Q) : M bool :=
  match l with
  | [] => ret false
  | j :: l' =>
      code <- gets (fun s => rd 0%Z (LLIST s) j) ;;
      pz <- gets (fun s => rd2 (p s) 2 j) ;;
      e <- gets (fun s => rd2 (p s) 3 j) ;;
      hit <-
        (if ((code =? 13) || (code =? 14))%Z && fltb pz 0 then
           r <- RNDM ;; ret (fltb r (fpow (2 * e / Ecm) 2))
         else ret false) ;;
      if (hit : bool) then ret true
      else
        hit <-
          (if ((6 <=? code) && (code <=? 8))%Z && fltb pz (-0.4) then
             r <- RNDM ;; ret (fltb r (fpow (2 * e / Ecm) 2))
           else ret false) ;;
        if (hit : bool) then ret true else leading_effect l' Ecm
  end.

(** The entries [0 .. np - 1] of [LLIST]. *)
Definition entries (s : sophia) : list Z :=
  map (fun j => rd 0%Z (LLIST s) j) (range 0 (np s)).

(** [ima = 1] after the loop over the stable entries: one of them has the
    code [c]. *)
Definition seen (s : sophia) (c : Z) : bool :=
  existsb (fun l => (Z.abs l <? 10000)%Z && (l =? c)%Z) (entries s).

(** The number of entries with a code of the list [cs]. *)
Definition count_codes (s : sophia) (cs : list Z) : Z :=
  Z.of_nat (List.length (filter (fun l => existsb (Z.eqb l) cs) (entries s))).

(** The body of [do { ... } while (repeat100)] after [itry] is checked:
    how the pass ends and the new [prob_reg]. *)
Definition gamma_h_pass (fuel : nat) (Ecm : Q) (ip1 ip2 Imode : Z)
    (ptu as1 as2 prob_reg : Q) : M (pass_end * Q) :=
  r <- RNDM ;;
  '(repeat100, prob_reg) <-
    (if fltb r prob_reg then
       b <- reggeon fuel Ecm ptu ip1 ip2 ;; ret (b, prob_reg)
     else pomeron fuel Ecm ptu as1 as2 prob_reg ip1 ip2) ;;
  if (repeat100 : bool) then ret (Repeat100, prob_reg)
  else if (Imode =? 5)%Z then
    DECSIB fuel ;;;
    let IQchr := (rd 0 ICHP (ip1 - 1) + rd 0 ICHP (ip2 - 1))%Z in
    let IQbar := (rd 0 IBAR (ip1 - 1) + rd 0 IBAR (ip2 - 1))%Z in
    ic <- gets Ic ;;
    check_event (- ic)%Z Ecm 0 0 0 IQchr IQbar ;;;
    ret (Returned, prob_reg)
  else
    n <- gets np ;;
    hit <- leading_effect (range 0 n) Ecm ;;
    if (hit : bool) then ret (Repeat100, prob_reg)
    else
      s <- gets (fun s => s) ;;
      let iba := if (ip1 =? 1)%Z then [6; 27; 32]%Z else [ip1; ip1; ip1] in
      let ibb := if (ip2 =? 1)%Z then [6; 27; 32]%Z else [ip2; ip2; ip2] in
      let imul :=
        Z.of_nat (List.length (filter (fun l => (Z.abs l <? 10000)%Z) (entries s))) in
      let pair (a b : Z) : bool := seen s a && seen s b in
      if (imul =? 2)%Z &&
         (pair (rd 0%Z iba 0) (rd 0%Z ibb 0) || pair (rd 0%Z iba 1) (rd 0%Z ibb 1)
          || pair (rd 0%Z iba 2) (rd 0%Z ibb 2))
      then ret (Repeat100, prob_reg)
      else if (imul =? 2)%Z && (ip2 =? 1)%Z && ((ip1 =? 13) || (ip1 =? 14))%Z &&
              (if (ip1 =? 13)%Z
               then (pair 14 7 || pair 40 8 || pair 42 7 || pair 13 23)%Z
               else (pair 13 8 || pair 43 7 || pair 41 8 || pair 14 23)%Z)
      then ret (Repeat100, prob_reg)
      else
        let ima_0 := count_codes s [6; 11; 12; 21; 22; 23; 24; 27; 32; 33]%Z in
        let imb_0 := count_codes s [7; 8; 9; 10; 25; 26]%Z in
        let a1 := 0.5 in
        let a2 := 0.5 in
        let prob_1 := a1 * inject_Z imb_0 / inject_Z (Z.max (ima_0 + imb_0) 1) + a2 in
        r <- RNDM ;;
        if fltb prob_1 r then ret (Repeat100, prob_reg)
        else ret (Passed imul, prob_reg).

(** [do { ... } while (repeat100)], [n] passes allowed by the model:
    [None] when the body returned from [gamma_h], else [imul]. *)
Fixpoint gamma_h_loop (n : nat) (fuel : nat) (itry : Z) (Ecm : Q)
    (ip1 ip2 Imode : Z) (ptu as1 as2 prob_reg : Q) : M (option Z) :=
  match n with
  | O => diverge
  | S n' =>
      let itry := (itry + 1)%Z in
      if (50 <? itry)%Z then throw "gamma_h: more than 50 internal rejections"
      else
        '(e, prob_reg) <- gamma_h_pass fuel Ecm ip1 ip2 Imode ptu as1 as2 prob_reg ;;
        match e with
        | Repeat100 =>
            gamma_h_loop n' fuel itry Ecm ip1 ip2 Imode ptu as1 as2 prob_reg
        | Returned => ret None
        | Passed imul => ret (Some imul)
        end
  end.

(** The passes the loop can make: fifty, and the one that throws. *)
Definition RETRY_FUEL : nat := 51.

(** [k] passes in a row that end with [repeat100] set: [prob_reg] and the
    state after them, [None] when one of them ends otherwise. *)
Fixpoint rejected_run (k : nat) (fuel : nat) (Ecm : Q) (ip1 ip2 Imode : Z)
    (ptu as1 as2 prob_reg : Q) (s : sophia) : option (Q * sophia) :=
  match k with
  | O => Some (prob_reg, s)
  | S k' =>
      match gamma_h_pass fuel Ecm ip1 ip2 Imode ptu as1 as2 prob_reg s with
      | (Ok (Repeat100, prob_reg'), s') =>
          rejected_run k' fuel Ecm ip1 ip2 Imode ptu as1 as2 prob_reg' s'
      | _ => None
      end
  end.

(** "correct multiplicity at very low energies": [ND] and [LL]. *)
Definition low_energy_channel (Ecm : Q) (ip1 imul : Z) : M (Z * list Z) :=
  s <- gets (fun s => s) ;;
  let nucleon := ((ip1 =? 13) || (ip1 =? 14))%Z in
  let iba_0 := if nucleon then ip1 else 0%Z in
  let iba_1 := if nucleon then 7%Z else 0%Z in
  let iba_2 := if nucleon then 8%Z else 0%Z in
  let ibb_1 := if nucleon then 6%Z else 0%Z in
  let ima_0 := count_codes s [iba_0] in
  let ima_1 := count_codes s [iba_1] in
  let ima_2 := count_codes s [iba_2] in
  let imb_1 := count_codes s [ibb_1] in
  let prob (E_ref_1 E_ref_2 : Q) : Q :=
    let Elog := flog Ecm in
    let Elog_1 := flog E_ref_1 in
    let Elog_2 := flog E_ref_2 in
    0.1 * 4 / fpow (Elog_2 - Elog_1) 2 * (Elog - Elog_1) * (Elog_2 - Elog) in
  '(ND, LL) <-
    (if (imul =? 3)%Z && fltb 1.6 Ecm && fltb Ecm 1.95 &&
        (ima_0 * ima_1 * ima_2 =? 1)%Z
     then
       r <- RNDM ;;
       ret (if fltb r (prob 1.6 1.95)
            then (4%Z, [ip1; 7; 8; 6; 0; 0; 0; 0; 0; 0]%Z)
            else (0%Z, repeat 0%Z 10))
     else ret (0%Z, repeat 0%Z 10)) ;;
  if (imul =? 4)%Z && fltb 1.95 Ecm && fltb Ecm 2.55 &&
     (ima_0 * ima_1 * ima_2 * imb_1 =? 1)%Z
  then
    r <- RNDM ;;
    ret (if fltb r (prob 1.95 2.55)
         then (4%Z, if (ip1 =? 13)%Z then [14; 7; 7; 8; 0; 0; 0; 0; 0; 0]%Z
                    else [13; 7; 8; 8; 0; 0; 0; 0; 0; 0]%Z)
         else (ND, LL))
  else ret (ND, LL).

(** [if (ND > 0) { ... }]: the event replaced by a phase-space decay. *)
Definition replace_event (fuel : nat) (Ecm : Q) (ND : Z) (LL : list Z) : M unit :=
  P_out <- DECPAR_zero fuel [0; 0; 0; Ecm; Ecm] ND LL ;;
  modify (fun s =>
    let '(LLs, pp, Iflip) :=
      fold_left
        (fun '(LLs, pp, Iflip) j =>
           let LLs := wr LLs j (rd 0%Z LL j) in
           let pp :=
             fold_left (fun pp k => wr2 pp k j (rd2 P_out k j)) [0; 1; 2; 3; 4]%Z pp in
           let Iflip :=
             if (((rd 0 LLs j =? 13) || (rd 0 LLs j =? 14))%Z && fltb (rd2 pp 2 j) 0)
             then 1%Z else Iflip in
           (LLs, pp, Iflip))
        (range 0 ND) (LLIST s, p s, 0%Z) in
    let pp :=
      if negb (Iflip =? 0)%Z
      then fold_left (fun pp j => wr2 pp 2 j (- rd2 pp 2 j)) (range 0 ND) pp
      else pp in
    set_np ND (set_p pp (set_LLIST LLs s))).

(** [ptu], [as1], [as2] and the first [prob_reg] of the branch
    "simulation of multiparticle production via fragmentation". *)
Definition fragmentation_setup (Ecm : Q) : Q * Q * Q * Q :=
  let SQS := Ecm in
  let S := SQS * SQS in
  let am13 := rd 0 AM 12 in
  let SIG_reg := 129 * fpow (S - am13 * am13) (-0.4525) in
  let SIG_pom := 67.7 * fpow (S - am13 * am13) 0.0808 in
  let prob_reg := if fltb 2.6 S then SIG_reg / (SIG_pom + SIG_reg) else 1 in
  let ptu := 0.36 + 0.08 * flog10 (SQS / 30) in
  let s1 := 1.2 in
  let s2 := 0.6 in
  let as1 := s1 * s1 / S in
  let as2 := s2 * s2 / S in
  let prob_reg := if fleb (SQS - 0.2) (s1 + s2) then 1 else prob_reg in
  (ptu, as1, as2, prob_reg).

(** The branch: [false] when the body of the loop returned from
    [gamma_h]. *)
Definition gamma_h_fragmentation (fuel : nat) (Ecm : Q) (ip1 ip2 Imode : Z)
  : M bool :=
  let '(ptu, as1, as2, prob_reg) := fragmentation_setup Ecm in
  r <- gamma_h_loop RETRY_FUEL fuel 0 Ecm ip1 ip2 Imode ptu as1 as2 prob_reg ;;
  match r with
  | None => ret false
  | Some imul =>
      '(ND, LL) <- low_energy_channel Ecm ip1 imul ;;
      (if (0 <? ND)%Z then replace_event fuel Ecm ND LL else ret tt) ;;;
      DECSIB fuel ;;;
      ret true
  end.

Definition gamma_h (fuel : nat) (Ecm : Q) (ip1 Imode : Z) : M unit :=
  let ip2 := 1%Z in
  let alphap := 0.25 in
  let S := Ecm * Ecm in
  modify (fun s => set_Ic (Ic s + 1)%Z s) ;;;
  go_on <-
    (if ((Imode =? 1) || (Imode =? 4))%Z then
       let code := if (Imode =? 1)%Z then 27%Z else 32%Z in
       let '(ipa, ipb) :=
         if (ip1 =? 1)%Z then (code, ip2)
         else if (ip2 =? 1)%Z then (ip1, code) else (ip1, ip2) in
       gamma_h_two_body fuel Ecm ip1 ip2 ipa ipb 1e-2 (6.5 + 2 * alphap * flog S) ;;;
       ret true
     else if ((Imode =? 2) || (Imode =? 3))%Z then
       '(ipa, ipb) <-
         (if (ip1 =? 13)%Z then
            if (Imode =? 2)%Z then ret (14, 7)%Z
            else r <- RNDM ;; ret (if fltb 0.25 r then (40, 8)%Z else (42, 7)%Z)
          else if (ip1 =? 14)%Z then
            if (Imode =? 2)%Z then ret (13, 8)%Z
            else r <- RNDM ;; ret (if fltb 0.25 r then (43, 7)%Z else (41, 8)%Z)
          else ret (0, 0)%Z) ;;
       gamma_h_two_body fuel Ecm ip1 ip2 ipa ipb 1e-3 12 ;;;
       ret true
     else gamma_h_fragmentation fuel Ecm ip1 ip2 Imode) ;;
  if (go_on : bool) then
    let IQchr := (rd 0 ICHP (ip1 - 1) + rd 0 ICHP (ip2 - 1))%Z in
    let IQbar := (rd 0 IBAR (ip1 - 1) + rd 0 IBAR (ip2 - 1))%Z in
    ic <- gets Ic ;;
    check_event (- ic)%Z Ecm 0 0 0 IQchr IQbar
  else ret tt.

(** *** [eventgen] and [sophiaevent] *)

Definition call_dec_proc2 (x : Q) (IRES L0 : Z) : M (Z * Z) :=
  fun s => let '(r, g) := dec_proc2 x IRES L0 (rlu s) in (r, set_rlu g s).

Definition call_RES_DECAY3 (IRES IPROC IRANGE : Z) (sv : Q) (L0 : Z) : M unit :=
  fun s =>
    let '(r, (LL, pp, g)) :=
      RES_DECAY3 IRES IPROC IRANGE sv L0 (LLIST s, p s, rlu s) in
    (r, set_rlu g (set_p pp (set_LLIST LL s))).

(** The invariant mass squared [s] that [eventgen] computes and tests
    against the threshold. *)
Definition eventgen_s (L0 : Z) (E0 eps theta : Q) : Q :=
  let pi := 3.1415926 in
  let pm := rd 0 AM (L0 - 1) in
  let gammap := E0 / pm in
  let xx := 1 / gammap in
  let betap :=
    if fltb 1000 gammap then 1 - 0.5 * xx * xx - 0.125 * xx * xx * xx * xx
    else fsqrt (1 - xx) * fsqrt (1 + xx) in
  pm * pm + 2 * eps * E0 * (1 - betap * fcos (theta * pi / 180)).

(** "consider only stable particles": the loop that moves the stable
    entries to the front; [istable] after it. *)
Fixpoint keep_stable (l : list Z) (istable : Z) : M Z :=
  match l with
  | [] => ret istable
  | i :: l' =>
      code <- gets (fun s => rd 0%Z (LLIST s) i) ;;
      if (Z.abs code <? 10000)%Z then
        let istable := (istable + 1)%Z in
        modify (fun s =>
          let pp :=
            fold_left (fun pp k => wr2 pp k (istable - 1) (rd2 pp k i))
                      [0; 1; 2; 3; 4]%Z (p s) in
          set_p pp (set_LLIST (wr (LLIST s) (istable - 1) (rd 0%Z (LLIST s) i)) s)) ;;;
        keep_stable l' istable
      else keep_stable l' istable
  end.

Definition eventgen (fuel : nat) (L0 : Z) (E0 eps theta : Q) : M unit :=
  let IRESMAX := 9%Z in
  let pi := 3.1415926 in
  let pm := rd 0 AM (L0 - 1) in
  let P_nuc := [0; 0; fsqrt (fmax ((E0 - pm) * (E0 + pm)) 0); E0] in
  let P_gam :=
    [eps * fsin (theta * pi / 180); 0; - eps * fcos (theta * pi / 180); eps] in
  let s := eventgen_s L0 E0 eps theta in
  let sqsm := fsqrt s in
  let eps_prime := (s - pm * pm) / 2 / pm in
  let P_sum := map (fun I => rd 0 P_nuc I + rd 0 P_gam I) [0; 1; 2; 3]%Z in
  let GamBet := map (fun I => rd 0 P_sum I / sqsm) [0; 1; 2; 3]%Z in
  let '(COD, SID, COF, SIF) :=
    if fltb (rd 0 GamBet 3) 1e5 then
      let pao :=
        PO_ALTRA (rd 0 GamBet 3) (- rd 0 GamBet 0) (- rd 0 GamBet 1) (- rd 0 GamBet 2)
                 (rd 0 P_nuc 0) (rd 0 P_nuc 1) (rd 0 P_nuc 2) (rd 0 P_nuc 3) in
      let Ptot := o_P pao in
      let COD := o_PZ pao / Ptot in
      let SID := fsqrt (o_PX pao * o_PX pao + o_PY pao * o_PY pao) / Ptot in
      if fltb 1e-5 (Ptot * SID) then
        let COF := o_PX pao / (SID * Ptot) in
        let SIF := o_PY pao / (SID * Ptot) in
        let Anorf := fsqrt (COF * COF + SIF * SIF) in
        (COD, SID, COF / Anorf, SIF / Anorf)
      else (COD, SID, 1, 0)
    else (1, 0, 1, 0) in
  let sth := 1.1646 in
  if fltb s sth then modify (set_np 0)
  else
    Imode <- dec_inter3 eps_prime L0 ;;
    (if (Imode <=? 5)%Z then gamma_h fuel sqsm L0 Imode
     else if (Imode =? 6)%Z then
       IRES <- dec_res2 eps_prime IRESMAX L0 ;;
       '(IPROC, IRANGE) <- call_dec_proc2 eps_prime IRES L0 ;;
       modify (set_np 2) ;;;
       call_RES_DECAY3 IRES IPROC IRANGE s L0 ;;;
       DECSIB fuel
     else throw "eventgen: invalid Imode") ;;;
    n <- gets np ;;
    istable <- keep_stable (range 0 n) 0 ;;
    (if (istable <? n)%Z then
       for_range istable n (fun i =>
         modify (fun s =>
           let pp := fold_left (fun pp k => wr2 pp k i 0) [0; 1; 2; 3; 4]%Z (p s) in
           set_p pp (set_LLIST (wr (LLIST s) i 0%Z) s)))
     else ret tt) ;;;
    modify (set_np istable) ;;;
    for_range 0 istable (fun I =>
      modify (fun s =>
        let pp := p s in
        let '(X, Y, Z) :=
          PO_TRANS (rd2 pp 0 I) (rd2 pp 1 I) (rd2 pp 2 I) COD SID COF SIF in
        let poa :=
          PO_ALTRA (rd 0 GamBet 3) (rd 0 GamBet 0) (rd 0 GamBet 1) (rd 0 GamBet 2)
                   X Y Z (rd2 pp 3 I) in
        let pp := wr2 pp 0 I (o_PX poa) in
        let pp := wr2 pp 1 I (o_PY poa) in
        let pp := wr2 pp 2 I (o_PZ poa) in
        let pp := wr2 pp 3 I (o_E poa) in
        set_p pp s)).

(** The entries of [sophiaevent_output] that [sophiaevent] writes: the
    rows of [outPartP] and [outPartID] up to [Nout], and [Nout]. *)
Record sophiaevent_output : Type := mkOutput {
  outPartP : list (list Q);
  outPartID : list Z;
  Nout : Z
}.

(** The angle [theta], in degrees, that [sophiaevent] passes to
    [eventgen] for the sampled [s]. *)
Definition sophiaevent_theta (L0 : Z) (E0 eps s : Q) : Q :=
  let pi := 3.141592653 in
  let pm := rd 0 AM (L0 - 1) in
  let Pp := fsqrt (E0 * E0 - pm * pm) in
  let theta := ((pm * pm - s) / 2 / eps + E0) / Pp in
  if fltb 1 theta then 0
  else if fltb theta (-1) then 180
  else facos theta * 180 / pi.

Definition sophiaevent (fuel : nat) (onProton : bool) (Ein eps : Q)
    (declareChargedPionsStable : bool) : M sophiaevent_output :=
  (if declareChargedPionsStable then
     modify (fun s => set_IDB (wr (wr (wr (IDB s) 5 0%Z) 6 0%Z) 7 0%Z) s)
   else ret tt) ;;;
  let L0 := if onProton then 13%Z else 14%Z in
  let E0 := Ein in
  s <- sample_s eps L0 E0 ;;
  let theta := sophiaevent_theta L0 E0 eps s in
  eventgen fuel L0 E0 eps theta ;;;
  st <- gets (fun st => st) ;;
  ret (mkOutput
         (map (fun j => map (fun i => rd2 (p st) j i) (range 0 (np st)))
              [0; 1; 2; 3; 4]%Z)
         (map (fun i => rd 0%Z (LLIST st) i) (range 0 (np st)))
         (np st)).

(** [IDB] after the first three statements of a call with
    [declareChargedPionsStable], and what it means for the three flags to
    be 0. *)
Definition pions_off (idb : list Z) : list Z :=
  wr (wr (wr idb 5 0%Z) 6 0%Z) 7 0%Z.

Definition flags_zero (idb : list Z) : Prop :=
  nth_error idb 5 = Some 0%Z /\ nth_error idb 6 = Some 0%Z /\
  nth_error idb 7 = Some 0%Z.

(** A caller of [sophiaevent]: the arguments of one call, and the
    file-scope state after it.  The statics outlive the call however it
    ends, also when it throws. *)
Record call : Type := mkCall {
  c_fuel : nat;
  c_onProton : bool;
  c_Ein : Q;
  c_eps : Q;
  c_declareChargedPionsStable : bool
}.

Definition after_call (c : call) (s : sophia) : sophia :=
  snd (sophiaevent (c_fuel c) (c_onProton c) (c_Ein c) (c_eps c)
                   (c_declareChargedPionsStable c) s).

Definition after_calls (cs : list call) (s : sophia) : sophia :=
  fold_left (fun s c => after_call c s) cs s.

End Model.
End Sophia.

(** ** An instance of the interfaces

    Rational stand-ins for what the embedding leaves open, on which the
    definitions can be run: a [libm] in fixed-point arithmetic, tables that
    hold the nucleon and pion entries only, a fragmentation that always
    fails, and the statics as they are when the program starts. *)
Module Example.
Local Open Scope Q_scope.

(** Fixed-point numbers: [a] stands for [a / 2^64]. *)
Definition SCALE : Z := 2 ^ 64.
Definition to_fx (x : Q) : Z := Qfloor (x * inject_Z SCALE).
Definition of_fx (a : Z) : Q := a # (2 ^ 64).
Definition fmul (a b : Z) : Z := (a * b / SCALE)%Z.

(** [2^k]. *)
Definition pow2 (k : Z) : Q :=
  if (0 <=? k)%Z then inject_Z (2 ^ k) else 1 / inject_Z (2 ^ (- k)).

(** [lo <= x <= hi] enforced. *)
Definition clamp (lo hi x : Q) : Q :=
  if Qle_bool x lo then lo else if Qle_bool hi x then hi else x.

Definition LN2 : Q := 0.693147180559945309.
Definition PI : Q := 3.141592653589793238.

(** [1 + t/1 * (1 + t/2 * (1 + ... (1 + t/n)))]. *)
Definition exp_series (n : nat) (t : Z) : Z :=
  fold_right (fun k acc => (SCALE + fmul t acc / k)%Z) SCALE
             (map Z.of_nat (seq 1 n)).

(** [exp y = 2^k * exp (y - k ln 2)], the second factor by its series on
    [[0, ln 2)]. *)
Definition exp_q (y : Q) : Q :=
  let k := Qfloor (y / LN2) in
  pow2 k * of_fx (exp_series 24 (to_fx (y - inject_Z k * LN2))).

(** [1 + z^2/3 + z^4/5 + ...], [n] terms. *)
Definition atanh_series (n : nat) (z : Z) : Z :=
  fold_right (fun k acc => (SCALE / (2 * k + 1) + fmul (fmul z z) acc)%Z) 0%Z
             (map Z.of_nat (seq 0 n)).

(** [log x = e ln 2 + log m] for [x = m 2^e], [1 <= m < 2], and
    [log m = 2 atanh ((m - 1) / (m + 1))]; 0 where the logarithm is not
    finite. *)
Definition log_q (x : Q) : Q :=
  if Qle_bool x 0 then 0
  else
    let e := (Z.log2 (to_fx x) - 64)%Z in
    let m := to_fx (x / pow2 e) in
    let z := ((m - SCALE) * SCALE / (m + SCALE))%Z in
    inject_Z e * LN2 + of_fx (2 * fmul z (atanh_series 20 z)).

(** [b^e]: by multiplication for an integer [e], else [exp (e log b)]. *)
Definition pow_q (b e : Q) : Q :=
  let e' := Qred e in
  if (Qden e' =? 1)%positive then Qpower b (Qnum e')
  else if Qle_bool b 0 then 0
  else exp_q (e * log_q b).

Definition sqrt_q (x : Q) : Q :=
  if Qle_bool x 0 then 0
  else Z.sqrt (Qfloor (x * inject_Z (2 ^ 128))) # (2 ^ 64).

(** [x] brought into [[-pi, pi)]. *)
Definition reduce_angle (x : Q) : Z :=
  to_fx (x - inject_Z (Qfloor (x / (2 * PI) + 1 / 2)) * (2 * PI)).

(** [1 - t^2/2 (1 - t^2/12 (1 - ...))] and [t (1 - t^2/6 (1 - ...))]. *)
Definition cos_series (n : nat) (t : Z) : Z :=
  fold_right (fun k acc => (SCALE - fmul (fmul t t) acc / ((2 * k - 1) * (2 * k)))%Z)
             SCALE (map Z.of_nat (seq 1 n)).
Definition sin_series (n : nat) (t : Z) : Z :=
  fmul t (fold_right
            (fun k acc => (SCALE - fmul (fmul t t) acc / ((2 * k) * (2 * k + 1)))%Z)
            SCALE (map Z.of_nat (seq 1 n))).

Definition cos_q (x : Q) : Q :=
  clamp (-1) 1 (of_fx (cos_series 16 (reduce_angle x))).
Definition sin_q (x : Q) : Q :=
  clamp (-1) 1 (of_fx (sin_series 16 (reduce_angle x))).

(** [acos x = sqrt (1 - x) * P x] on [[0, 1]], [pi - acos (- x)] below. *)
Definition acos_pos (x : Q) : Q :=
  sqrt_q (1 - x) *
  fold_right (fun a acc => a + x * acc) 0
    [1.5707963050; -0.2145988016; 0.0889789874; -0.0501743046;
     0.0308918810; -0.0170881256; 0.0066700901; -0.0012624911].
Definition acos_q (x : Q) : Q :=
  let x := of_fx (to_fx (clamp (-1) 1 x)) in
  if Qle_bool 0 x then acos_pos x else PI - acos_pos (- x).

#[export] Instance libm : Libm :=
  {| fsqrt := sqrt_q; fexp := exp_q; flog := log_q;
     flog10 := fun x => log_q x / log_q 10; fpow := pow_q;
     fsin := sin_q; fcos := cos_q; facos := acos_q |}.

(** The integrator: the midpoint rule. *)
Definition midpoint (f : Q -> res Q) (a b : Q) : res Q :=
  rbind (f ((a + b) / 2)) (fun v => Ok ((b - a) * v)).

(** Masses, charges and baryon numbers of the pions (codes 6, 7, 8) and
    nucleons (codes 13, 14); no resonance. *)
#[export] Instance tables : Tables :=
  {| AM := repeat 0 5 ++ [0.13497; 0.13957; 0.13957] ++ repeat 0 4 ++
           [0.93827; 0.93957] ++ repeat 0 35;
     ICHP := (repeat 0 6 ++ [1; -1] ++ repeat 0 4 ++ [1; 0] ++ repeat 0 35)%Z;
     IBAR := (repeat 0 12 ++ [1; 1] ++ repeat 0 35)%Z;
     RATIOJp := repeat 0 9; BGAMMAp := repeat 0 9;
     AMRESp := repeat 0 9; WIDTHp := repeat 0 9;
     RATIOJn := repeat 0 9; BGAMMAn := repeat 0 9;
     AMRESn := repeat 0 9; WIDTHn := repeat 0 9;
     gaussInt := midpoint |}.

(** A fragmentation that never succeeds: [lund_frag] leaves [np = -1]. *)
#[export] Instance jetset : Jetset :=
  {| lund_rec := unit;
     lund_store := fun _ _ _ _ _ _ l => l;
     LUJOIN := fun _ _ l => Ok l;
     lund_frag_run := fun _ lg => (Ok (-1)%Z, lg);
     PLU := fun _ _ _ => 0;
     KLU := fun _ _ _ => 0%Z |}.

(** Decays into nothing; [PO_SELSX2] rejects. *)
#[export] Instance routines : Routines :=
  {| DECPAR_nonZero := fun _ _ _ g => (Ok (0%Z, [], []), g);
     dec_proc2 := fun _ _ _ g => (Ok (1%Z, 1%Z), g);
     RES_DECAY3 := fun _ _ _ _ _ x => (Ok tt, x);
     PO_SELSX2 := fun _ _ _ _ g => (Ok ([], [], true), g) |}.

(** The statics before the first call: every particle but the first
    five flagged unstable, an empty record, [RLU] not yet seeded. *)
Definition start : Sophia.sophia :=
  Sophia.mkSophia (repeat 0%Z 5 ++ repeat 1%Z 44) 0 (repeat 0%Z 2000)
                  (repeat (repeat 0 2000) 5) 0 Rlu.rlu_static tt.

(** A proton and a photon whose largest invariant mass squared lies just
    above the threshold: [smax - smin] is about 4.3e-4. *)
Definition near_Ein : Q := 1000.
Definition near_eps : Q := 0.00007117.
Definition near_smax : Q :=
  fmax 1.1646
       (rd 0 AM 12 * rd 0 AM 12
        + 2 * near_eps * (near_Ein + fsqrt (near_Ein * near_Ein - rd 0 AM 12 * rd 0 AM 12))).
End Example.

(** * Properties *)

Section ArrayFacts.
Context {A : Type}.

Lemma length_upd (a : list A) n v : length (upd a n v) = length a.
Proof.
  revert n; induction a as [|h t IH]; intros [|n]; simpl; auto.
Qed.

Lemma nth_upd_same (a : list A) n v d :
  (n < length a)%nat -> nth n (upd a n v) d = v.
Proof.
  revert n; induction a as [|h t IH]; intros [|n] Hn; simpl in *; try lia; auto.
  apply IH; lia.
Qed.

Lemma nth_upd_other (a : list A) n m v d :
  n <> m -> nth m (upd a n v) d = nth m a d.
Proof.
  revert n m; induction a as [|h t IH]; intros [|n] [|m] Hnm; simpl; auto;
    try congruence.
Qed.

Lemma upd_upd_same (a : list A) n v w : upd (upd a n v) n w = upd a n w.
Proof.
  revert n; induction a as [|h t IH]; intros [|n]; simpl; auto.
  now rewrite IH.
Qed.

Lemma wr_wr_same (a : list A) i v w : wr (wr a i v) i w = wr a i w.
Proof. unfold wr; destruct (i <? 0); auto using upd_upd_same. Qed.

Lemma length_wr (a : list A) i v : length (wr a i v) = length a.
Proof. unfold wr; destruct (i <? 0); auto using length_upd. Qed.

Lemma rd_wr_same (a : list A) i v d :
  0 <= i < Z.of_nat (length a) -> rd d (wr a i v) i = v.
Proof.
  intros Hi; unfold rd, wr.
  destruct (Z.ltb_spec i 0); [lia|].
  apply nth_upd_same; lia.
Qed.

Lemma rd_wr_other (a : list A) i j v d :
  i <> j -> rd d (wr a i v) j = rd d a j.
Proof.
  intros Hij; unfold rd, wr.
  destruct (Z.ltb_spec j 0); auto.
  destruct (Z.ltb_spec i 0); auto.
  apply nth_upd_other; lia.
Qed.
End ArrayFacts.

Module RluFacts.
Import Rlu.

Ltac six M :=
  destruct M as [|?m0 [|?m1 [|?m2 [|?m3 [|?m4 [|?m5 [|]]]]]]]; try discriminate.

Ltac redM :=
  repeat first
    [ progress change (rd 0 (?a :: ?b :: ?c :: ?d :: ?e :: ?f :: nil) 0) with a in *
    | progress change (rd 0 (?a :: ?b :: ?c :: ?d :: ?e :: ?f :: nil) 1) with b in *
    | progress change (rd 0 (?a :: ?b :: ?c :: ?d :: ?e :: ?f :: nil) 2) with c in *
    | progress change (rd 0 (?a :: ?b :: ?c :: ?d :: ?e :: ?f :: nil) 3) with d in *
    | progress change (rd 0 (?a :: ?b :: ?c :: ?d :: ?e :: ?f :: nil) 4) with e in *
    | progress change (wr (?a :: ?b :: ?c :: ?d :: ?e :: ?f :: nil) 0 ?v)
        with (v :: b :: c :: d :: e :: f :: nil) in *
    | progress change (wr (?a :: ?b :: ?c :: ?d :: ?e :: ?f :: nil) 1 ?v)
        with (a :: v :: c :: d :: e :: f :: nil) in *
    | progress change (wr (?a :: ?b :: ?c :: ?d :: ?e :: ?f :: nil) 2 ?v)
        with (a :: b :: v :: d :: e :: f :: nil) in *
    | progress change (wr (?a :: ?b :: ?c :: ?d :: ?e :: ?f :: nil) 3 ?v)
        with (a :: b :: c :: v :: e :: f :: nil) in *
    | progress change (wr (?a :: ?b :: ?c :: ?d :: ?e :: ?f :: nil) 4 ?v)
        with (a :: b :: c :: d :: v :: f :: nil) in * ].

Lemma wrap97_dec i : 1 <= i <= 97 ->
  wrap97 (i - 1) = if i - 1 =? 0 then 97 else i - 1.
Proof.
  intros Hi. unfold wrap97.
  destruct (Z.eqb_spec (i - 1) 0) as [E|E].
  - rewrite E. reflexivity.
  - rewrite Z.mod_small; lia.
Qed.

Lemma wrap_mod a m : 0 < m -> - m <= a < m ->
  (if a <? 0 then a + m else a) = a mod m.
Proof.
  intros Hm Ha. destruct (Z.ltb_spec a 0).
  - apply Z.mod_unique with (q := -1); lia.
  - symmetry; apply Z.mod_small; lia.
Qed.

Lemma rlu_iter_eq st :
  seeded st ->
  let i := rd 0 (MRLU st) 3 in
  let j := rd 0 (MRLU st) 4 in
  let c := rd 0 (RRLU st) 97 in
  let u := (rd 0 (RRLU st) (i - 1) - rd 0 (RRLU st) (j - 1)) mod ONE in
  let c' := (c - 7654321) mod 16777213 in
  rlu_iter st =
    ((u - c') mod ONE,
     mkRlu (wr (wr (MRLU st) 3 (wrap97 (i - 1))) 4 (wrap97 (j - 1)))
           (wr (wr (RRLU st) (i - 1) u) 97 c')).
Proof.
  intros [HlM HlR Hin Hi Hj Hlag Htab Hc Hcd Hcm].
  destruct st as [M R]. intros i j c u c'. cbn [MRLU RRLU] in *.
  six M. redM.
  unfold rlu_iter; cbn [MRLU RRLU]. redM.
  fold i j.
  pose proof (Htab (i - 1) ltac:(lia)) as H1.
  pose proof (Htab (j - 1) ltac:(lia)) as H2.
  rewrite (wrap_mod (rd 0 R (i - 1) - rd 0 R (j - 1)) ONE) by (unfold ONE in *; lia).
  fold u.
  assert (Hu : 0 <= u < ONE) by (apply Z.mod_pos_bound; reflexivity).
  rewrite (rd_wr_other _ (i - 1) 97), (rd_wr_other _ (i - 1) 98) by lia.
  fold c. rewrite Hcd.
  rewrite rd_wr_same by (rewrite length_wr; lia).
  rewrite (rd_wr_other _ 97 99), (rd_wr_other _ (i - 1) 99), Hcm by lia.
  rewrite wr_wr_same.
  assert (Hc' : (if c - 7654321 <? 0
                 then wr (wr R (i - 1) u) 97 (c - 7654321 + 16777213)
                 else wr (wr R (i - 1) u) 97 (c - 7654321))
                = wr (wr R (i - 1) u) 97 c').
  { subst c'. rewrite <- (wrap_mod (c - 7654321) 16777213) by lia.
    destruct (c - 7654321 <? 0); reflexivity. }
  rewrite Hc'.
  rewrite rd_wr_same by (rewrite length_wr; lia).
  assert (Hcb : 0 <= c' < 16777213) by (apply Z.mod_pos_bound; reflexivity).
  rewrite (wrap_mod (u - c') ONE) by (unfold ONE in *; lia).
  rewrite !wrap97_dec by lia.
  destruct (i - 1 =? 0); redM; fold j; destruct (j - 1 =? 0); redM; reflexivity.
Qed.

Lemma wrap97_range x : 1 <= wrap97 x <= 97.
Proof. unfold wrap97. pose proof (Z.mod_pos_bound (x - 1) 97). lia. Qed.

Lemma wrap97_small x : 1 <= x <= 97 -> wrap97 x = x.
Proof. intros; unfold wrap97; rewrite Z.mod_small; lia. Qed.

Lemma wrap97_shift x m : wrap97 (wrap97 x + m) = wrap97 (x + m).
Proof.
  unfold wrap97.
  replace ((x - 1) mod 97 + 1 + m - 1) with ((x - 1) mod 97 + m) by lia.
  replace (x + m - 1) with ((x - 1) + m) by lia.
  now rewrite Z.add_mod_idemp_l by lia.
Qed.

Lemma wrap97_inj_lt x m : 1 <= m <= 96 -> wrap97 (x + m) <> wrap97 x.
Proof.
  unfold wrap97; intros Hm E.
  assert (E' : (x + m - 1) mod 97 = (x - 1) mod 97) by lia.
  clear E. revert E'. 
  pose proof (Z.div_mod (x + m - 1) 97 ltac:(lia)).
  pose proof (Z.div_mod (x - 1) 97 ltac:(lia)).
  pose proof (Z.mod_pos_bound (x + m - 1) 97 ltac:(lia)).
  pose proof (Z.mod_pos_bound (x - 1) 97 ltac:(lia)).
  intros E'. lia.
Qed.

(** The state one pass leaves, and the candidate it computes. *)
Lemma rlu_iter_seeded st r st' :
  seeded st -> rlu_iter st = (r, st') -> seeded st' /\ 0 <= r < ONE.
Proof.
  intros Hs E. rewrite (rlu_iter_eq st Hs) in E. cbv zeta in E.
  injection E as Er Est. subst r st'.
  destruct Hs as [HlM HlR Hin Hi Hj Hlag Htab Hc Hcd Hcm].
  split; [|apply Z.mod_pos_bound; reflexivity].
  set (i := rd 0 (MRLU st) 3) in *. set (j := rd 0 (MRLU st) 4) in *.
  assert (Hu : forall a, 0 <= a mod ONE < ONE)
    by (intros; apply Z.mod_pos_bound; reflexivity).
  constructor; cbn [MRLU RRLU]; rewrite ?length_wr; auto.
  - rewrite !rd_wr_other by lia; auto.
  - rewrite rd_wr_other, rd_wr_same by (rewrite ?length_wr; lia).
    apply wrap97_range.
  - rewrite rd_wr_same by (rewrite ?length_wr; lia). apply wrap97_range.
  - rewrite (rd_wr_other _ 4 3), !rd_wr_same by (rewrite ?length_wr; lia).
    unfold wrap97.
    replace ((i - 1 - 1) mod 97 + 1 - ((j - 1 - 1) mod 97 + 1))
      with ((i - 1 - 1) mod 97 - (j - 1 - 1) mod 97) by lia.
    rewrite <- Zminus_mod.
    replace (i - 1 - 1 - (j - 1 - 1)) with (i - j) by lia. exact Hlag.
  - intros k Hk. rewrite rd_wr_other by lia.
    destruct (Z.eq_dec (i - 1) k) as [->|Hne].
    + rewrite rd_wr_same by lia. apply Hu.
    + rewrite rd_wr_other by lia. auto.
  - rewrite rd_wr_same by (rewrite ?length_wr; lia).
    apply Z.mod_pos_bound; reflexivity.
  - rewrite !rd_wr_other by lia. exact Hcd.
  - rewrite !rd_wr_other by lia. exact Hcm.
Qed.

(** A pass whose candidate is rejected stored the value the arithmetic
    sequence has reached. *)
Lemma hist_step st k st' :
  seeded st -> 0 <= k -> hist k st ->
  rlu_iter st = (0, st') -> hist (k + 1) st'.
Proof.
  intros Hs Hk Hh E. pose proof (rlu_iter_seeded _ _ _ Hs E) as [Hs' _].
  rewrite (rlu_iter_eq st Hs) in E. cbv zeta in E.
  injection E as Er Est.
  destruct Hs as [HlM HlR Hin Hi Hj Hlag Htab Hc Hcd Hcm].
  set (i := rd 0 (MRLU st) 3) in *. set (j := rd 0 (MRLU st) 4) in *.
  set (c := rd 0 (RRLU st) 97) in *.
  set (u := (rd 0 (RRLU st) (i - 1) - rd 0 (RRLU st) (j - 1)) mod ONE) in *.
  set (c' := (c - 7654321) mod 16777213) in *.
  assert (Hub : 0 <= u < ONE) by (apply Z.mod_pos_bound; reflexivity).
  assert (Hcb : 0 <= c' < 16777213) by (apply Z.mod_pos_bound; reflexivity).
  assert (Huc : u = c').
  { unfold ONE in *.
    pose proof (Z.div_mod (u - c') 16777216 ltac:(lia)) as D.
    rewrite Er in D. 
    assert (- 1 <= (u - c') / 16777216 <= 0).
    { split; [apply Z.div_le_lower_bound | apply Z.lt_succ_r, Z.div_lt_upper_bound]; lia. }
    lia. }
  intros m Hm Hm97. subst st'. cbn [MRLU RRLU].
  rewrite (rd_wr_other _ 4 3), (rd_wr_same _ 3) by (rewrite ?length_wr; lia).
  rewrite (rd_wr_same _ 97) by (rewrite ?length_wr; lia).
  rewrite wrap97_shift.
  replace (i - 1 + m) with (i + (m - 1)) by lia.
  rewrite rd_wr_other by (pose proof (wrap97_range (i + (m - 1))); lia).
  destruct (Z.eq_dec m 1) as [->|Hm1].
  - replace (i + (1 - 1)) with i by lia. rewrite wrap97_small by lia.
    rewrite rd_wr_same by lia. rewrite Huc. 
    replace (c' + (1 - 1) * 7654321) with c' by lia.
    symmetry; apply Z.mod_small; lia.
  - rewrite rd_wr_other.
    2:{ pose proof (wrap97_inj_lt i (m - 1) ltac:(lia)) as N.
        rewrite (wrap97_small i) in N by lia. lia. }
    pose proof (Hh (m - 1) ltac:(lia) ltac:(lia)) as Hm'.
    unfold hist in Hm'. change (rd 0 (MRLU st) 3) with i in Hm'.
    rewrite Hm'. fold c.
    subst c'.
    rewrite Z.add_mod_idemp_l by lia.
    f_equal. lia.
Qed.

Lemma lag_arith c :
  0 <= c < 16777213 ->
  ((c + 96 * 7654321) mod 16777213 - (c + 32 * 7654321) mod 16777213)
    mod 16777216 = (c - 7654321) mod 16777213 ->
  (c - 7654321) mod 16777213 = 3337364 \/
  (c - 7654321) mod 16777213 = 3337367 \/
  (c - 7654321) mod 16777213 = 3337370.
Proof.
  intros Hc. Z.div_mod_to_equations. lia.
Qed.

Lemma lag_pointer i j :
  1 <= i <= 97 -> 1 <= j <= 97 -> (i - j) mod 97 = 64 -> j = wrap97 (i + 33).
Proof.
  unfold wrap97. intros Hi Hj. Z.div_mod_to_equations. lia.
Qed.

(** Once every entry of the table is a value of the arithmetic sequence,
    a rejected pass pins that sequence to one of three values. *)
Lemma hist_full_reject st st' :
  seeded st -> hist 97 st -> rlu_iter st = (0, st') ->
  rd 0 (RRLU st') 97 = 3337364 \/ rd 0 (RRLU st') 97 = 3337367 \/
  rd 0 (RRLU st') 97 = 3337370.
Proof.
  intros Hs Hh E.
  rewrite (rlu_iter_eq st Hs) in E. cbv zeta in E.
  injection E as Er Est.
  destruct Hs as [HlM HlR Hin Hi Hj Hlag Htab Hc Hcd Hcm].
  pose proof (Hh 97 ltac:(lia) ltac:(lia)) as Ha.
  pose proof (Hh 33 ltac:(lia) ltac:(lia)) as Hb.
  set (i := rd 0 (MRLU st) 3) in *. set (j := rd 0 (MRLU st) 4) in *.
  set (c := rd 0 (RRLU st) 97) in *.
  rewrite <- (lag_pointer i j Hi Hj Hlag) in Hb.
  replace (wrap97 (i + 97)) with i in Ha.
  2:{ unfold wrap97. replace (i + 97 - 1) with (i - 1 + 1 * 97) by lia.
      rewrite Z.mod_add, Z.mod_small; lia. }
  rewrite Ha, Hb in Er.
  assert (Hub : 0 <= (c - 7654321) mod 16777213 < 16777213)
    by (apply Z.mod_pos_bound; reflexivity).
  subst st'. cbn [RRLU]. rewrite rd_wr_same by (rewrite ?length_wr; lia).
  apply lag_arith; auto.
  set (u := ((c + (97 - 1) * 7654321) mod 16777213 -
             (c + (33 - 1) * 7654321) mod 16777213) mod ONE) in *.
  assert (0 <= u < ONE) by (apply Z.mod_pos_bound; reflexivity).
  unfold ONE in *.
  change (97 - 1) with 96 in u. change (33 - 1) with 32 in u.
  fold u.
  pose proof (Z.div_mod (u - (c - 7654321) mod 16777213) 16777216 ltac:(lia)) as D.
  rewrite Er in D.
  assert (- 1 <= (u - (c - 7654321) mod 16777213) / 16777216 <= 0).
  { split; [apply Z.div_le_lower_bound | apply Z.lt_succ_r, Z.div_lt_upper_bound]; lia. }
  lia.
Qed.

Lemma reject_twice c :
  (c = 3337364 \/ c = 3337367 \/ c = 3337370) ->
  ~ ((c - 7654321) mod 16777213 = 3337364 \/
     (c - 7654321) mod 16777213 = 3337367 \/
     (c - 7654321) mod 16777213 = 3337370).
Proof.
  intros [ -> | [ -> | -> ] ]; vm_compute; intros [H | [H | H] ]; discriminate.
Qed.

Lemma hist_weaken k k' st : k' <= k -> hist k st -> hist k' st.
Proof. intros Hk Hh m Hm Hm'. apply Hh; lia. Qed.

Lemma rlu_iter_sequence st r st' :
  seeded st -> rlu_iter st = (r, st') ->
  rd 0 (RRLU st') 97 = (rd 0 (RRLU st) 97 - 7654321) mod 16777213.
Proof.
  intros Hs E. rewrite (rlu_iter_eq st Hs) in E. cbv zeta in E.
  injection E as Er Est. subst st'. cbn [RRLU].
  destruct Hs. rewrite rd_wr_same by (rewrite ?length_wr; lia). reflexivity.
Qed.

(** The loop of [RLU] ends within 99 passes. *)
Lemma rlu_loop_total n : forall st k,
  seeded st -> 0 <= k <= 98 -> hist k st ->
  (k = 98 -> pinned (rd 0 (RRLU st) 97)) ->
  99 <= k + Z.of_nat n ->
  exists r st', rlu_loop n st = Some (r, st') /\ 0 < r < ONE /\ seeded st'.
Proof.
  induction n as [|n IH]; intros st k Hs Hk Hh Hp Hn; [lia|].
  cbn [rlu_loop]. destruct (rlu_iter st) as [r st1] eqn:E.
  destruct (rlu_iter_seeded _ _ _ Hs E) as [Hs1 Hr].
  destruct (Z.eq_dec r 0) as [->|Hr0].
  - cbn [Z.leb Z.compare orb].
    assert (k <> 98).
    { intros ->. apply (reject_twice _ (Hp eq_refl)).
      rewrite <- (rlu_iter_sequence _ _ _ Hs E).
      apply (hist_full_reject st); auto. apply (hist_weaken 98); auto; lia. }
    apply (IH st1 (k + 1)); auto; try lia.
    + apply (hist_step st); auto; lia.
    + intros Hk1. apply (hist_full_reject st); auto.
      apply (hist_weaken k); auto; lia.
  - destruct (Z.leb_spec r 0); [lia|].
    destruct (Z.leb_spec ONE r); [lia|].
    cbn [orb]. exists r, st1. split; [reflexivity|]. split; [lia|exact Hs1].
Qed.

Lemma seed_word_bound n : forall I J K L Sacc Tbit,
  0 <= Sacc < ONE -> 0 <= Tbit -> Sacc + 2 * Tbit <= ONE ->
  0 <= snd (seed_word n I J K L Sacc Tbit) < ONE.
Proof.
  induction n as [|n IH]; intros I J K L Sacc Tbit HS HT HST; cbn [seed_word].
  - exact HS.
  - cbv zeta.
    assert (HT2 : 0 <= Tbit / 2) by (apply Z.div_pos; lia).
    assert (HT3 : 2 * (Tbit / 2) <= Tbit) by (apply Z.mul_div_le; lia).
    destruct (32 <=? _); apply IH; lia.
Qed.

Lemma seed_table_spec n : forall II I J K L R,
  1 <= II -> II - 1 + Z.of_nat n <= Z.of_nat (length R) ->
  length (seed_table n II I J K L R) = length R /\
  (forall k, II - 1 <= k < II - 1 + Z.of_nat n ->
             0 <= rd 0 (seed_table n II I J K L R) k < ONE) /\
  (forall k, k < II - 1 \/ II - 1 + Z.of_nat n <= k ->
             rd 0 (seed_table n II I J K L R) k = rd 0 R k).
Proof.
  induction n as [|n IH]; intros II I J K L R HII Hlen; cbn [seed_table].
  - split; [reflexivity|split]; intros; [lia|reflexivity].
  - pose proof (seed_word_bound 24 I J K L 0 (ONE / 2)
                  ltac:(unfold ONE; lia) ltac:(unfold ONE; cbv; discriminate)
                  ltac:(unfold ONE; cbv; discriminate)) as Hw.
    destruct (seed_word 24 I J K L 0 (ONE / 2)) as [[[[I' J'] K'] L'] Sv].
    cbn [snd] in Hw.
    destruct (IH (II + 1) I' J' K' L' (wr R (II - 1) Sv) ltac:(lia)
                ltac:(rewrite length_wr; lia)) as (H1 & H2 & H3).
    rewrite length_wr in H1. split; [exact H1|split].
    + intros k Hk. destruct (Z.eq_dec k (II - 1)) as [->|Hne].
      * rewrite H3 by lia. rewrite rd_wr_same by lia. exact Hw.
      * apply H2; lia.
    + intros k Hk. rewrite H3 by lia. apply rd_wr_other; lia.
Qed.

Lemma seed_from_spec seed R :
  length R = 100%nat ->
  length (seed_from seed R) = 100%nat /\
  (forall k, 0 <= k < 97 -> 0 <= rd 0 (seed_from seed R) k < ONE) /\
  rd 0 (seed_from seed R) 97 = 362436 /\
  rd 0 (seed_from seed R) 98 = 7654321 /\
  rd 0 (seed_from seed R) 99 = 16777213.
Proof.
  intros HR. unfold seed_from. cbv zeta.
  match goal with |- context [seed_table 97 1 ?I ?J ?K ?L R] =>
    destruct (seed_table_spec 97 1 I J K L R ltac:(lia) ltac:(rewrite HR; cbn; lia))
      as (H1 & H2 & H3);
    set (T := seed_table 97 1 I J K L R) in *
  end.
  rewrite HR in H1.
  split; [now rewrite !length_wr|].
  split.
  - intros k Hk. rewrite !rd_wr_other by lia. apply H2. cbn; lia.
  - rewrite (rd_wr_other _ 99 97), (rd_wr_other _ 98 97), (rd_wr_other _ 99 98) by lia.
    rewrite !rd_wr_same by (rewrite ?length_wr; lia). auto.
Qed.

Lemma RLU_seed_seeded b st : fresh st -> seeded (RLU_seed b st).
Proof.
  intros (HM & HR & H1). destruct st as [M R]; cbn [MRLU RRLU] in *.
  six M. unfold RLU_seed; cbn [MRLU RRLU].
  destruct (seed_from_spec
              (rd 0 (if b && (rd 0 [m0; m1; m2; m3; m4; m5] 0 =? 0)
                     then wr [m0; m1; m2; m3; m4; m5] 0 19780503
                     else [m0; m1; m2; m3; m4; m5]) 0) R HR)
    as (S1 & S2 & S3 & S4 & S5).
  destruct (b && _); redM;
    (constructor; cbn [MRLU RRLU]; redM; auto; try lia; try reflexivity).
Qed.

Lemma hist_zero st : hist 0 st.
Proof. intros m Hm; lia. Qed.

Lemma rlu_loop_MRLU n : forall st r st',
  seeded st -> rlu_loop n st = Some (r, st') ->
  rd 0 (MRLU st') 0 = rd 0 (MRLU st) 0 /\
  rd 0 (MRLU st') 1 = rd 0 (MRLU st) 1.
Proof.
  induction n as [|n IH]; intros st r st' Hs E; cbn [rlu_loop] in E; [discriminate|].
  destruct (rlu_iter st) as [r1 st1] eqn:E1.
  destruct (rlu_iter_seeded _ _ _ Hs E1) as [Hs1 _].
  assert (rd 0 (MRLU st1) 0 = rd 0 (MRLU st) 0 /\
          rd 0 (MRLU st1) 1 = rd 0 (MRLU st) 1) as [A0 A1].
  { rewrite (rlu_iter_eq st Hs) in E1. cbv zeta in E1.
    injection E1 as _ <-. cbn [MRLU]. now rewrite !rd_wr_other by lia. }
  destruct ((r1 <=? 0) || (ONE <=? r1)).
  - destruct (IH _ _ _ Hs1 E) as [B0 B1]. split; congruence.
  - injection E as _ <-. auto.
Qed.

Lemma rlu_loop_seeded n : forall st r st',
  seeded st -> rlu_loop n st = Some (r, st') -> seeded st'.
Proof.
  induction n as [|n IH]; intros st r st' Hs E; cbn [rlu_loop] in E; [discriminate|].
  destruct (rlu_iter st) as [r1 st1] eqn:E1.
  destruct (rlu_iter_seeded _ _ _ Hs E1) as [Hs1 _].
  destruct ((r1 <=? 0) || (ONE <=? r1)); [eauto|].
  now injection E as _ <-.
Qed.

(** Every call of [RLU] returns, with a number strictly between 0 and 1,
    and leaves the seed as it found or set it. *)
Lemma RLU_total fuel b st :
  fresh st \/ seeded st -> (99 <= fuel)%nat ->
  exists r st', RLU fuel b st = Some (r, st') /\ 0 < r < ONE /\ seeded st' /\
    rd 0 (MRLU st') 0 =
      (if (rd 0 (MRLU st) 1 =? 0) && b && (rd 0 (MRLU st) 0 =? 0)
       then 19780503 else rd 0 (MRLU st) 0).
Proof.
  intros Hst Hfuel. unfold RLU.
  set (st1 := if rd 0 (MRLU st) 1 =? 0 then RLU_seed b st else st).
  assert (Hs1 : seeded st1).
  { subst st1. destruct Hst as [Hf|Hs].
    - destruct Hf as (A & B & C). rewrite C. cbn. apply RLU_seed_seeded. repeat split; auto.
    - destruct Hs. destruct (Z.eqb_spec (rd 0 (MRLU st) 1) 0); [lia|]. now constructor. }
  assert (Hseed : rd 0 (MRLU st1) 0 =
      (if (rd 0 (MRLU st) 1 =? 0) && b && (rd 0 (MRLU st) 0 =? 0)
       then 19780503 else rd 0 (MRLU st) 0)).
  { subst st1. destruct (rd 0 (MRLU st) 1 =? 0) eqn:E; cbn [andb]; [|reflexivity].
    assert (HlM : length (MRLU st) = 6%nat).
    { destruct Hst as [(A & _)|[A]]; auto. }
    destruct st as [M R]; cbn [MRLU RRLU] in *. six M.
    unfold RLU_seed; cbn [MRLU RRLU]. redM.
    destruct b; cbn [andb]; redM; [|reflexivity].
    destruct (m0 =? 0); redM; reflexivity. }
  destruct (rlu_loop_total fuel st1 0 Hs1 ltac:(lia) (hist_zero _) ltac:(lia) ltac:(lia))
    as (r & st2 & E & Hr & Hs2).
  rewrite E. eexists _, _. split; [reflexivity|]. split; [exact Hr|].
  destruct (rlu_loop_MRLU _ _ _ _ Hs1 E) as [K0 K1].
  destruct Hs2 as [HlM HlR Hin Hi Hj Hlag Htab Hc Hcd Hcm].
  rewrite <- Hseed, <- K0. clear Hseed K0 K1 E.
  destruct st2 as [M R]; cbn [MRLU RRLU] in *. six M. redM.
  destruct (m2 + 1 =? 1000000000); redM;
    (split; [constructor; cbn [MRLU RRLU]; redM; auto; lia | reflexivity]).
Qed.

Lemma fresh_static : fresh rlu_static.
Proof. repeat split. Qed.

Lemma reachable_inv st :
  reachable st ->
  (st = rlu_static \/ seeded st) /\ rd 0 (MRLU st) 0 = 19780503.
Proof.
  induction 1 as [|st fuel b r st' Hr [IH1 IH2] E].
  - split; [now left|reflexivity].
  - assert (Hst : fresh st \/ seeded st).
    { destruct IH1 as [->|Hs]; [left; apply fresh_static|now right]. }
    unfold RLU in E.
    set (st1 := if rd 0 (MRLU st) 1 =? 0 then RLU_seed b st else st) in E.
    assert (Hs1 : seeded st1 /\ rd 0 (MRLU st1) 0 = 19780503).
    { subst st1. destruct IH1 as [->|Hs].
      - split; [apply RLU_seed_seeded, fresh_static|destruct b; reflexivity].
      - destruct Hs. destruct (Z.eqb_spec (rd 0 (MRLU st) 1) 0); [lia|].
        split; [now constructor|assumption]. }
    destruct Hs1 as [Hs1 Hseed].
    destruct (rlu_loop fuel st1) as [[r2 st2]|] eqn:E2; [|discriminate].
    destruct (rlu_loop_MRLU _ _ _ _ Hs1 E2) as [K0 K1].
    pose proof (rlu_loop_seeded _ _ _ _ Hs1 E2) as Hs2.
    cbv beta iota zeta in E. injection E as _ <-.
    rewrite <- Hseed, <- K0. clear Hseed K0 K1 E2.
    destruct Hs2 as [HlM HlR Hin Hi Hj Hlag Htab Hc Hcd Hcm].
    destruct st2 as [M R]; cbn [MRLU RRLU] in *. six M. redM.
    destruct (m2 + 1 =? 1000000000); redM;
      (split; [right; constructor; cbn [MRLU RRLU]; redM; auto; lia | reflexivity]).
Qed.

(** C9.  Every call of the shared generator, from [RNDM] or directly,
    returns (the loop ends within 99 passes) a number strictly between 0
    and 1; the generator is the one pair of statics [MRLU], [RRLU], which
    every call reads and leaves updated; the table is seeded on the first
    call, from the seed 19780503, and never again; and [RNDM] puts that
    seed in place of an unset (zero) one. *)
Theorem RLU_open_unit_interval :
  forall st, reachable st -> forall (b : bool) (fuel : nat), (99 <= fuel)%nat ->
    (exists r st',
        RLU fuel b st = Some (r, st') /\
        (0 < to_double r)%Q /\ (to_double r < 1)%Q /\
        reachable st' /\
        rd 0 (MRLU st') 0 = 19780503 /\ rd 0 (MRLU st') 1 <> 0) /\
    (rd 0 (MRLU st) 1 = 0 <-> st = rlu_static) /\
    RLU_seed b rlu_static =
      mkRlu [19780503; 1; 0; 97; 33; 0] (seed_from 19780503 (RRLU rlu_static)) /\
    (forall m2 m3 m4 m5 R,
        RLU_seed true (mkRlu [0; 0; m2; m3; m4; m5] R) =
        mkRlu [19780503; 1; 0; 97; 33; m5] (seed_from 19780503 R)).
Proof.
  intros st Hreach b fuel Hfuel.
  destruct (reachable_inv st Hreach) as [Hst Hseed].
  assert (Hst' : fresh st \/ seeded st).
  { destruct Hst as [->|Hs]; [left; apply fresh_static|now right]. }
  destruct (RLU_total fuel b st Hst' Hfuel) as (r & st' & E & Hr & Hs' & Hseed').
  split; [|split; [|split]].
  - exists r, st'. split; [exact E|].
    assert (Hreach' : reachable st') by (eapply reach_call; eauto).
    unfold to_double, Qlt, ONE in *; cbn [Qnum Qden].
    repeat split; try lia; auto.
    + apply (reachable_inv st' Hreach').
    + destruct Hs'. lia.
  - split; [|intros ->; reflexivity].
    destruct Hst as [->|[]]; [reflexivity|lia].
  - destruct b; reflexivity.
  - reflexivity.
Qed.

Lemma RLU_open_unit_interval_witness :
  exists r st',
    RLU 99 true rlu_static = Some (r, st') /\
    (0 < to_double r)%Q /\ (to_double r < 1)%Q /\
    reachable st' /\
    rd 0 (MRLU st') 0 = 19780503 /\ rd 0 (MRLU st') 1 <> 0.
Proof.
  exact (proj1 (RLU_open_unit_interval rlu_static reach_static true 99%nat (le_n 99))).
Defined.

End RluFacts.

Section DoubleFacts.
Local Open Scope Q_scope.

Lemma fltb_spec a b : BoolSpec (a < b) (b <= a) (fltb a b).
Proof.
  unfold fltb. destruct (Qle_bool b a) eqn:E; constructor.
  - now apply Qle_bool_iff.
  - apply Qnot_le_lt. intros H. apply Qle_bool_iff in H. congruence.
Qed.

Lemma fleb_spec a b : BoolSpec (a <= b) (b < a) (fleb a b).
Proof.
  unfold fleb. destruct (Qle_bool a b) eqn:E; constructor.
  - now apply Qle_bool_iff.
  - apply Qnot_le_lt. intros H. apply Qle_bool_iff in H. congruence.
Qed.

Lemma feqb_spec a b : BoolSpec (a == b) (~ a == b) (feqb a b).
Proof.
  unfold feqb. destruct (Qeq_bool a b) eqn:E; constructor.
  - now apply Qeq_bool_iff.
  - intros H. apply Qeq_bool_iff in H. congruence.
Qed.
End DoubleFacts.

Ltac fcases :=
  repeat match goal with
    | |- context [fltb ?a ?b] => destruct (fltb_spec a b)
    | |- context [fleb ?a ?b] => destruct (fleb_spec a b)
    | |- context [feqb ?a ?b] => destruct (feqb_spec a b)
    end.

Module SophiaFacts.
Import Sophia.

Section Facts.
Context {libm : Libm} {tables : Tables} {jetset : Jetset} {routines : Routines}.
Local Open Scope Q_scope.

(** C7.  For a resonance index from 1 to 9, a nucleon code 13 or 14 and
    a cosine between -1 and 1, [probangle] returns the value of one of its
    enumerated branches: control does not reach the end of the function,
    where the error is constructed without being thrown and nothing is
    returned. *)
Theorem probangle_returns_a_branch_value :
  forall (IRES L0 : Z) (z : Q),
    (1 <= IRES <= 9)%Z -> L0 = 13%Z \/ L0 = 14%Z -> -1 <= z <= 1 ->
    exists v, probangle IRES L0 z = Some v /\ In v (probangle_branches z).
Proof.
  intros IRES L0 z HI HL _.
  assert (HI' : (IRES = 1 \/ IRES = 2 \/ IRES = 3 \/ IRES = 4 \/ IRES = 5 \/
                IRES = 6 \/ IRES = 7 \/ IRES = 8 \/ IRES = 9)%Z) by lia.
  unfold probangle_branches.
  destruct HL as [-> | ->];
    repeat (destruct HI' as [-> | HI']); try subst IRES;
    (eexists; split; [reflexivity | cbn [In]; tauto]).
Qed.

Lemma probangle_returns_a_branch_value_witness :
  exists v, probangle 3 13 (1 # 2) = Some v /\ In v (probangle_branches (1 # 2)).
Proof.
  apply probangle_returns_a_branch_value; [lia | now left | split; discriminate].
Defined.

(** *** The choice of the process *)

Lemma crossection_ok x NDIR L0 :
  L0 = 13%Z \/ L0 = 14%Z -> (0 <= NDIR <= 19)%Z ->
  exists v, crossection x NDIR L0 = Ok v.
Proof.
  intros HL HN. unfold crossection.
  assert (E : (negb (L0 =? 13) && negb (L0 =? 14))%Z = false)
    by (destruct HL as [-> | ->]; reflexivity).
  rewrite E. cbv zeta. destruct (fltb _ _); [now eexists|].
  unfold crossection_select.
  repeat match goal with
    | |- context [(NDIR =? ?k)%Z] => destruct (Z.eqb_spec NDIR k); [now eexists|]
    end.
  destruct (Z.leb_spec 11 NDIR); [|lia].
  destruct (Z.leb_spec NDIR 19); [|lia].
  now eexists.
Qed.

Lemma dec_inter3_branch_spec p1 p2 p3 p4 p5 p6 rn :
  rn <= 1 ->
  dec_inter3_branch p1 p2 p3 p4 p5 p6 rn =
  Ok (mode_of_draw rn [(p1, 6%Z); (p2, 2%Z); (p3, 3%Z); (p4, 1%Z); (p5, 4%Z); (p6, 5%Z)]).
Proof.
  intros Hrn. unfold dec_inter3_branch, mode_of_draw, first_under.
  cbn [find fst snd option_map].
  destruct (fltb_spec rn p1); [reflexivity|].
  destruct (fleb_spec p1 rn); [|exfalso; lra]. cbn [andb].
  destruct (fltb_spec rn p2); [reflexivity|].
  destruct (fleb_spec p2 rn); [|exfalso; lra]. cbn [andb].
  destruct (fltb_spec rn p3); [reflexivity|].
  destruct (fleb_spec p3 rn); [|exfalso; lra]. cbn [andb].
  destruct (fltb_spec rn p4); [reflexivity|].
  destruct (fleb_spec p4 rn); [|exfalso; lra]. cbn [andb].
  destruct (fltb_spec rn p5); [reflexivity|].
  destruct (fleb_spec p5 rn); [|exfalso; lra]. cbn [andb].
  destruct (fltb_spec rn p6); [reflexivity|].
  destruct (fleb_spec p6 rn); [|exfalso; lra]. cbn [andb].
  destruct (fltb_spec rn 1); [reflexivity|].
  destruct (feqb_spec rn 1) as [|Hne]; [reflexivity|].
  exfalso. apply Hne. apply Qle_antisym; assumption.
Qed.

(** C2.  For a nucleon code 13 or 14, [dec_inter3] gets the total cross
    section and the six partial ones without an error, replaces a total of
    zero by 1 (so the divisor is never zero), draws exactly one number,
    and returns the mode of the first of the six cumulative ratios, in the
    order resonance (6), direct N pi (2), direct Delta pi (3), diffractive
    rho (1), diffractive omega (4), fragmentation in the resonance region
    (5), that the number is below, and multipion production (0) when it
    is below none of them; a number equal to 1, with ratios that are at
    most 1, gives multipion production. *)
Theorem dec_inter3_first_threshold :
  forall (eps_prime : Q) (L0 : Z),
    L0 = 13%Z \/ L0 = 14%Z ->
    exists tot c1 c7 c2 c8 c9 c0 : Q,
      crossection eps_prime 3 L0 = Ok tot /\
      crossection eps_prime 1 L0 = Ok c1 /\
      crossection eps_prime 7 L0 = Ok c7 /\
      crossection eps_prime 2 L0 = Ok c2 /\
      crossection eps_prime 8 L0 = Ok c8 /\
      crossection eps_prime 9 L0 = Ok c9 /\
      crossection eps_prime 0 L0 = Ok c0 /\
      let d := if feqb tot 0 then 1 else tot in
      let ths := [(c1 / d, 6%Z); (c7 / d, 2%Z); (c2 / d, 3%Z);
                  (c8 / d, 1%Z); (c9 / d, 4%Z); (c0 / d, 5%Z)] in
      ~ d == 0 /\
      (tot == 0 -> d = 1) /\
      (forall s,
          dec_inter3 eps_prime L0 s =
          bind RNDM (fun rn =>
            lift (dec_inter3_branch (c1 / d) (c7 / d) (c2 / d) (c8 / d)
                                    (c9 / d) (c0 / d) rn)) s) /\
      (forall rn, rn <= 1 ->
          dec_inter3_branch (c1 / d) (c7 / d) (c2 / d) (c8 / d) (c9 / d) (c0 / d) rn
          = Ok (mode_of_draw rn ths)) /\
      ((forall t, In t ths -> fst t <= 1) ->
          dec_inter3_branch (c1 / d) (c7 / d) (c2 / d) (c8 / d) (c9 / d) (c0 / d) 1
          = Ok 0%Z).
Proof.
  intros eps_prime L0 HL.
  destruct (crossection_ok eps_prime 3 L0 HL ltac:(lia)) as [tot E3].
  destruct (crossection_ok eps_prime 1 L0 HL ltac:(lia)) as [c1 E1].
  destruct (crossection_ok eps_prime 7 L0 HL ltac:(lia)) as [c7 E7].
  destruct (crossection_ok eps_prime 2 L0 HL ltac:(lia)) as [c2 E2].
  destruct (crossection_ok eps_prime 8 L0 HL ltac:(lia)) as [c8 E8].
  destruct (crossection_ok eps_prime 9 L0 HL ltac:(lia)) as [c9 E9].
  destruct (crossection_ok eps_prime 0 L0 HL ltac:(lia)) as [c0 E0].
  exists tot, c1, c7, c2, c8, c9, c0.
  repeat (split; [assumption|]).
  cbv zeta. split; [|split; [|split; [|split]]].
  - destruct (feqb_spec tot 0); [discriminate | assumption].
  - intros H. destruct (feqb_spec tot 0); [reflexivity | contradiction].
  - intros s. unfold dec_inter3, dec_inter3_probs.
    rewrite E3, E1, E7, E2, E8, E9, E0. reflexivity.
  - intros rn Hrn. now apply dec_inter3_branch_spec.
  - intros Hle. rewrite dec_inter3_branch_spec by lra.
    set (d := if feqb tot 0 then 1 else tot) in *.
    pose proof (Hle (c1 / d, 6%Z) ltac:(cbn [In]; tauto)) as H1.
    pose proof (Hle (c7 / d, 2%Z) ltac:(cbn [In]; tauto)) as H2.
    pose proof (Hle (c2 / d, 3%Z) ltac:(cbn [In]; tauto)) as H3.
    pose proof (Hle (c8 / d, 1%Z) ltac:(cbn [In]; tauto)) as H4.
    pose proof (Hle (c9 / d, 4%Z) ltac:(cbn [In]; tauto)) as H5.
    pose proof (Hle (c0 / d, 5%Z) ltac:(cbn [In]; tauto)) as H6.
    cbn [fst] in *. clear Hle.
    unfold mode_of_draw, first_under. cbn [find fst].
    generalize dependent (c1 / d). generalize dependent (c7 / d).
    generalize dependent (c2 / d). generalize dependent (c8 / d).
    generalize dependent (c9 / d). generalize dependent (c0 / d).
    intros. fcases; cbn [option_map snd]; try reflexivity; exfalso; lra.
Qed.

(** *** Frames: what a member function leaves unchanged *)

Section Frame.
Context {X : Type} (f : sophia -> X).

Lemma preserves_ret {A} (a : A) : preserves f (ret a).
Proof. intros s; reflexivity. Qed.

Lemma preserves_throw {A} msg : preserves f (@throw _ A msg).
Proof. intros s; reflexivity. Qed.

Lemma preserves_diverge {A} : preserves f (@diverge _ A).
Proof. intros s; reflexivity. Qed.

Lemma preserves_lift {A} (r : res A) : preserves f (lift r).
Proof. intros s; reflexivity. Qed.

Lemma preserves_gets {A} (g : sophia -> A) : preserves f (gets g).
Proof. intros s; reflexivity. Qed.

Lemma preserves_modify (g : sophia -> sophia) :
  (forall s, f (g s) = f s) -> preserves f (modify g).
Proof. intros H s; apply H. Qed.

Lemma preserves_bind {A B} (m : M A) (k : A -> M B) :
  preserves f m -> (forall a, preserves f (k a)) -> preserves f (bind m k).
Proof.
  intros Hm Hk s. unfold bind. specialize (Hm s).
  destruct (m s) as [[a | msg | | ] s']; cbn [snd] in *;
    [rewrite Hk|..]; exact Hm.
Qed.

Lemma preserves_for_loop n : forall j body,
  (forall i, preserves f (body i)) -> preserves f (for_loop n j body).
Proof.
  induction n as [|n IH]; intros j body Hb; cbn [for_loop].
  - apply preserves_ret.
  - apply preserves_bind; auto.
Qed.

Lemma preserves_for_range lo hi body :
  (forall i, preserves f (body i)) -> preserves f (for_range lo hi body).
Proof. apply preserves_for_loop. Qed.

Lemma preserves_foldM {S} (body : Z -> S -> M S) l : forall acc,
  (forall i a, preserves f (body i a)) -> preserves f (foldM body l acc).
Proof.
  induction l as [|i l IH]; intros acc Hb; cbn [foldM].
  - apply preserves_ret.
  - apply preserves_bind; auto.
Qed.
End Frame.

Create HintDb frame discriminated.

Ltac frame_modify :=
  let s := fresh "s" in
  intros s;
  repeat match goal with
    | |- context [match ?e with pair _ _ => _ end] => destruct e
    | |- context [if ?c then _ else _] => destruct c
    end;
  reflexivity.

Ltac frame_step :=
  lazymatch goal with
  | |- preserves _ (bind _ _) => apply preserves_bind; [|intros]
  | |- preserves _ (ret _) => apply preserves_ret
  | |- preserves _ (throw _) => apply preserves_throw
  | |- preserves _ diverge => apply preserves_diverge
  | |- preserves _ (lift _) => apply preserves_lift
  | |- preserves _ (gets _) => apply preserves_gets
  | |- preserves _ (modify _) => apply preserves_modify; frame_modify
  | |- preserves _ (for_range _ _ _) => apply preserves_for_range; intros
  | |- preserves _ (foldM _ _ _) => apply preserves_foldM; intros
  | |- preserves _ (if ?c then _ else _) => destruct c
  | |- preserves _ (match ?x with _ => _ end) => destruct x
  | |- preserves _ (let _ := _ in _) => cbv zeta
  | |- preserves _ _ => solve [auto with frame]
  end.

Ltac frame := repeat frame_step.

Lemma IDB_RNDM : preserves IDB RNDM.
Proof.
  intros s. unfold RNDM. destruct (Rlu.RNDM RLU_FUEL (rlu s)) as [[r g]|]; reflexivity.
Qed.
Hint Resolve IDB_RNDM : frame.

Lemma IDB_check_event ic E PX PY PZ q b : preserves IDB (check_event ic E PX PY PZ q b).
Proof. unfold check_event. frame. Qed.
Hint Resolve IDB_check_event : frame.

Lemma IDB_call_DECPAR_nonZero L P0 : preserves IDB (call_DECPAR_nonZero L P0).
Proof.
  intros s. unfold call_DECPAR_nonZero.
  destruct (DECPAR_nonZero (IDB s) L P0 (rlu s)); reflexivity.
Qed.
Hint Resolve IDB_call_DECPAR_nonZero : frame.

Lemma IDB_DECSIB_step NN : preserves IDB (DECSIB_step NN).
Proof. unfold DECSIB_step. frame. Qed.
Hint Resolve IDB_DECSIB_step : frame.

Lemma IDB_DECSIB_loop fuel : forall NN, preserves IDB (DECSIB_loop fuel NN).
Proof. induction fuel as [|fuel IH]; intros NN; cbn [DECSIB_loop]; frame. Qed.
Hint Resolve IDB_DECSIB_loop : frame.

Lemma IDB_DECSIB fuel : preserves IDB (DECSIB fuel).
Proof. unfold DECSIB. frame. Qed.
Hint Resolve IDB_DECSIB : frame.

Lemma IDB_valences ip : preserves IDB (valences ip).
Proof. unfold valences. frame. Qed.
Hint Resolve IDB_valences : frame.

Lemma IDB_sample_pt fuel ptu ee : preserves IDB (sample_pt fuel ptu ee).
Proof. induction fuel as [|fuel IH]; cbn [sample_pt]; frame. Qed.
Hint Resolve IDB_sample_pt : frame.

Lemma IDB_dec_inter3 e L0 : preserves IDB (dec_inter3 e L0).
Proof. unfold dec_inter3. frame. Qed.
Hint Resolve IDB_dec_inter3 : frame.

Lemma IDB_dec_res2 e m L0 : preserves IDB (dec_res2 e m L0).
Proof. unfold dec_res2. frame. Qed.
Hint Resolve IDB_dec_res2 : frame.

Lemma IDB_sample_s_candidate smin smax pmax sintegr1 L0 :
  preserves IDB (sample_s_candidate smin smax pmax sintegr1 L0).
Proof. unfold sample_s_candidate. frame. Qed.
Hint Resolve IDB_sample_s_candidate : frame.

Lemma IDB_sample_s_reject fuel : forall i s smin smax pmax sint L0,
  preserves IDB (sample_s_reject fuel i s smin smax pmax sint L0).
Proof. induction fuel as [|fuel IH]; intros; cbn [sample_s_reject]; frame. Qed.
Hint Resolve IDB_sample_s_reject : frame.

Lemma IDB_sample_s eps L0 Ein : preserves IDB (sample_s eps L0 Ein).
Proof. unfold sample_s. frame. Qed.
Hint Resolve IDB_sample_s : frame.

Lemma IDB_DECPAR_zero_pass g MAT MBST P0 ND PS W P_out PV RORD :
  preserves IDB (DECPAR_zero_pass g MAT MBST P0 ND PS W P_out PV RORD).
Proof. unfold DECPAR_zero_pass. frame. Qed.
Hint Resolve IDB_DECPAR_zero_pass : frame.

Lemma IDB_DECPAR_zero_loop fuel : forall g MAT MBST P0 ND PS W P_out PV RORD,
  preserves IDB (DECPAR_zero_loop fuel g MAT MBST P0 ND PS W P_out PV RORD).
Proof. induction fuel as [|fuel IH]; intros; cbn [DECPAR_zero_loop]; frame. Qed.
Hint Resolve IDB_DECPAR_zero_loop : frame.

Lemma IDB_DECPAR_zero fuel P0 ND LL : preserves IDB (DECPAR_zero fuel P0 ND LL).
Proof. unfold DECPAR_zero. frame. Qed.
Hint Resolve IDB_DECPAR_zero : frame.

Lemma IDB_lund_put I IFL PX PY PZ EE : preserves IDB (lund_put I IFL PX PY PZ EE).
Proof. unfold lund_put. frame. Qed.
Hint Resolve IDB_lund_put : frame.

Lemma IDB_call_LUJOIN n l : preserves IDB (call_LUJOIN n l).
Proof. intros s. unfold call_LUJOIN. destruct (LUJOIN n l (lund s)); reflexivity. Qed.
Hint Resolve IDB_call_LUJOIN : frame.

Lemma IDB_lund_frag SQS : preserves IDB (lund_frag SQS).
Proof.
  intros s. unfold lund_frag.
  destruct (lund_frag_run SQS (lund s, rlu s)) as [[n | msg | | ] [l g]]; reflexivity.
Qed.
Hint Resolve IDB_lund_frag : frame.

Lemma IDB_take_fragments : preserves IDB take_fragments.
Proof. unfold take_fragments. frame. Qed.
Hint Resolve IDB_take_fragments : frame.

Lemma IDB_gamma_h_two_body fuel Ecm ip1 ip2 ipa ipb margin b :
  preserves IDB (gamma_h_two_body fuel Ecm ip1 ip2 ipa ipb margin b).
Proof. unfold gamma_h_two_body. frame. Qed.
Hint Resolve IDB_gamma_h_two_body : frame.

Lemma IDB_reggeon_valences n ip1 ip2 : preserves IDB (reggeon_valences n ip1 ip2).
Proof. induction n as [|n IH]; cbn [reggeon_valences]; frame. Qed.
Hint Resolve IDB_reggeon_valences : frame.

Lemma IDB_reggeon_after_frag : preserves IDB reggeon_after_frag.
Proof. unfold reggeon_after_frag. frame. Qed.
Hint Resolve IDB_reggeon_after_frag : frame.

Lemma IDB_pomeron_after_frag q : preserves IDB (pomeron_after_frag q).
Proof. unfold pomeron_after_frag. frame. Qed.
Hint Resolve IDB_pomeron_after_frag : frame.

Lemma IDB_reggeon fuel Ecm ptu ip1 ip2 : preserves IDB (reggeon fuel Ecm ptu ip1 ip2).
Proof. unfold reggeon. frame. Qed.
Hint Resolve IDB_reggeon : frame.

Lemma IDB_pomeron_string fuel Ecm ptu x1 x2 :
  preserves IDB (pomeron_string fuel Ecm ptu x1 x2).
Proof. unfold pomeron_string. frame. Qed.
Hint Resolve IDB_pomeron_string : frame.

Lemma IDB_call_PO_SELSX2 a b c d : preserves IDB (call_PO_SELSX2 a b c d).
Proof.
  intros s. unfold call_PO_SELSX2. destruct (PO_SELSX2 a b c d (rlu s)); reflexivity.
Qed.
Hint Resolve IDB_call_PO_SELSX2 : frame.

Lemma IDB_pomeron fuel Ecm ptu as1 as2 q ip1 ip2 :
  preserves IDB (pomeron fuel Ecm ptu as1 as2 q ip1 ip2).
Proof. unfold pomeron. frame. Qed.
Hint Resolve IDB_pomeron : frame.

Lemma IDB_leading_effect l Ecm : preserves IDB (leading_effect l Ecm).
Proof. induction l as [|j l IH]; cbn [leading_effect]; frame. Qed.
Hint Resolve IDB_leading_effect : frame.

Lemma IDB_gamma_h_pass fuel Ecm ip1 ip2 Imode ptu as1 as2 q :
  preserves IDB (gamma_h_pass fuel Ecm ip1 ip2 Imode ptu as1 as2 q).
Proof. unfold gamma_h_pass. frame. Qed.
Hint Resolve IDB_gamma_h_pass : frame.

Lemma IDB_gamma_h_loop n : forall fuel itry Ecm ip1 ip2 Imode ptu as1 as2 q,
  preserves IDB (gamma_h_loop n fuel itry Ecm ip1 ip2 Imode ptu as1 as2 q).
Proof. induction n as [|n IH]; intros; cbn [gamma_h_loop]; frame. Qed.
Hint Resolve IDB_gamma_h_loop : frame.

Lemma IDB_low_energy_channel Ecm ip1 imul :
  preserves IDB (low_energy_channel Ecm ip1 imul).
Proof. unfold low_energy_channel. frame. Qed.
Hint Resolve IDB_low_energy_channel : frame.

Lemma IDB_replace_event fuel Ecm ND LL : preserves IDB (replace_event fuel Ecm ND LL).
Proof. unfold replace_event. frame. Qed.
Hint Resolve IDB_replace_event : frame.

Lemma IDB_gamma_h_fragmentation fuel Ecm ip1 ip2 Imode :
  preserves IDB (gamma_h_fragmentation fuel Ecm ip1 ip2 Imode).
Proof. unfold gamma_h_fragmentation. frame. Qed.
Hint Resolve IDB_gamma_h_fragmentation : frame.

Lemma IDB_gamma_h fuel Ecm ip1 Imode : preserves IDB (gamma_h fuel Ecm ip1 Imode).
Proof. unfold gamma_h. frame. Qed.
Hint Resolve IDB_gamma_h : frame.

Lemma IDB_call_dec_proc2 x IRES L0 : preserves IDB (call_dec_proc2 x IRES L0).
Proof.
  intros s. unfold call_dec_proc2. destruct (dec_proc2 x IRES L0 (rlu s)); reflexivity.
Qed.
Hint Resolve IDB_call_dec_proc2 : frame.

Lemma IDB_call_RES_DECAY3 a b c d e : preserves IDB (call_RES_DECAY3 a b c d e).
Proof.
  intros s. unfold call_RES_DECAY3.
  destruct (RES_DECAY3 a b c d e (LLIST s, p s, rlu s)) as [r [[LL pp] g]]; reflexivity.
Qed.
Hint Resolve IDB_call_RES_DECAY3 : frame.

Lemma IDB_keep_stable l : forall k, preserves IDB (keep_stable l k).
Proof. induction l as [|i l IH]; intros; cbn [keep_stable]; frame. Qed.
Hint Resolve IDB_keep_stable : frame.

(** [eventgen] never writes [IDB]. *)
Lemma IDB_eventgen fuel L0 E0 eps theta : preserves IDB (eventgen fuel L0 E0 eps theta).
Proof. unfold eventgen. frame. Qed.
Hint Resolve IDB_eventgen : frame.

End Facts.
End SophiaFacts.

Section UpdFacts.
Context {A : Type}.

Lemma upd_id (a : list A) : forall n v, nth_error a n = Some v -> upd a n v = a.
Proof.
  induction a as [|h t IH]; intros [|n] v H; cbn in *; try congruence.
  f_equal. auto.
Qed.

Lemma nth_error_upd_same (a : list A) : forall n v,
  (n < length a)%nat -> nth_error (upd a n v) n = Some v.
Proof.
  induction a as [|h t IH]; intros [|n] v H; cbn in *; try lia; auto.
  apply IH. lia.
Qed.

Lemma nth_error_upd_other (a : list A) : forall n m v,
  n <> m -> nth_error (upd a n v) m = nth_error a m.
Proof.
  induction a as [|h t IH]; intros [|n] [|m] v H; cbn; auto; try congruence.
Qed.

Lemma nth_error_rd (d : A) (a : list A) (i : Z) v :
  0 <= i -> nth_error a (Z.to_nat i) = Some v -> rd d a i = v.
Proof.
  intros Hi H. unfold rd. destruct (Z.ltb_spec i 0); [lia|].
  now apply nth_error_nth.
Qed.
End UpdFacts.

Module PionFlags.
Import Sophia SophiaFacts.
Section Facts.
Context {libm : Libm} {tables : Tables} {jetset : Jetset} {routines : Routines}.

Lemma pions_off_zero idb : (8 <= length idb)%nat -> flags_zero (pions_off idb).
Proof.
  intros H. unfold pions_off, flags_zero, wr. cbn [Z.ltb Z.compare].
  change (Z.to_nat 5) with 5%nat. change (Z.to_nat 6) with 6%nat.
  change (Z.to_nat 7) with 7%nat.
  repeat split.
  - rewrite !nth_error_upd_other by lia. apply nth_error_upd_same. lia.
  - rewrite nth_error_upd_other by lia. apply nth_error_upd_same.
    rewrite length_upd. lia.
  - apply nth_error_upd_same. rewrite !length_upd. lia.
Qed.

Lemma pions_off_id idb : flags_zero idb -> pions_off idb = idb.
Proof.
  intros (H5 & H6 & H7). unfold pions_off, wr. cbn [Z.ltb Z.compare].
  change (Z.to_nat 5) with 5%nat. change (Z.to_nat 6) with 6%nat.
  change (Z.to_nat 7) with 7%nat.
  rewrite (upd_id idb 5 0 H5), (upd_id idb 6 0 H6). now apply upd_id.
Qed.

Lemma snd_bind_frame {A B X} (f : sophia -> X) (m : M A) (k : A -> M B) s :
  (forall a, preserves f (k a)) -> f (snd (bind m k s)) = f (snd (m s)).
Proof.
  intros Hk. unfold bind.
  destruct (m s) as [[a | msg | | ] s']; cbn [snd]; auto. apply Hk.
Qed.

(** The only statements of a call that write [IDB] are its first
    three. *)
Lemma IDB_sophiaevent fuel onProton Ein eps flag s :
  IDB (snd (sophiaevent fuel onProton Ein eps flag s)) =
  if flag then pions_off (IDB s) else IDB s.
Proof.
  unfold sophiaevent. rewrite snd_bind_frame.
  - destruct flag; reflexivity.
  - intros _. apply preserves_bind; [apply IDB_sample_s|]. intros sv.
    apply preserves_bind; [apply IDB_eventgen|]. intros _.
    apply preserves_bind; [apply preserves_gets|]. intros st.
    apply preserves_ret.
Qed.

Lemma IDB_after_call c s :
  IDB (after_call c s) =
  if c_declareChargedPionsStable c then pions_off (IDB s) else IDB s.
Proof. unfold after_call. apply IDB_sophiaevent. Qed.

Lemma IDB_after_calls cs : forall s,
  flags_zero (IDB s) -> IDB (after_calls cs s) = IDB s.
Proof.
  unfold after_calls.
  induction cs as [|c cs IH]; intros s H; cbn [fold_left]; [reflexivity|].
  assert (E : IDB (after_call c s) = IDB s).
  { rewrite IDB_after_call. destruct (c_declareChargedPionsStable c); auto.
    now apply pions_off_id. }
  rewrite IH; rewrite E; auto.
Qed.

(** DECSIB leaves an entry alone whose flag is 0. *)
Lemma DECSIB_step_stable NN s :
  rd 0 (LLIST s) (NN - 1) <> 0 ->
  rd 0 (IDB s) (Z.abs (rd 0 (LLIST s) (NN - 1)) - 1) = 0 ->
  DECSIB_step NN s = (Ok tt, s).
Proof.
  intros HL Hf. unfold DECSIB_step, bind, gets.
  destruct (Z.eqb_spec (rd 0 (LLIST s) (NN - 1)) 0); [contradiction|].
  rewrite Hf. reflexivity.
Qed.

(** C10.  A call of [sophiaevent] with [declareChargedPionsStable] set
    writes 0 to [IDB[5]], [IDB[6]] and [IDB[7]] and to nothing else of
    [IDB]; no later call, with the flag set or not and however it ends,
    changes [IDB] again.  So after any number of further calls the three
    flags are still 0, and [DECSIB] passes over every entry of the event
    record that is a pion (codes 6, 7, 8 and their negatives) without
    decaying it. *)
Theorem stable_pion_flags_persist (s : sophia)
    (fuel : nat) (onProton : bool) (Ein eps : Q) (later : list call) :
  (8 <= length (IDB s))%nat ->
  let s1 := snd (sophiaevent fuel onProton Ein eps true s) in
  let s2 := after_calls later s1 in
  IDB s1 = pions_off (IDB s) /\
  IDB s2 = IDB s1 /\
  flags_zero (IDB s2) /\
  (forall i, i <> 5%nat -> i <> 6%nat -> i <> 7%nat ->
     nth_error (IDB s2) i = nth_error (IDB s) i) /\
  (forall NN, 6 <= Z.abs (rd 0 (LLIST s2) (NN - 1)) <= 8 ->
     DECSIB_step NN s2 = (Ok tt, s2)).
Proof.
  intros Hlen s1 s2.
  assert (E1 : IDB s1 = pions_off (IDB s)) by apply (IDB_sophiaevent _ _ _ _ true).
  assert (Z1 : flags_zero (IDB s1)) by (rewrite E1; now apply pions_off_zero).
  assert (E2 : IDB s2 = IDB s1) by now apply IDB_after_calls.
  assert (Z2 : flags_zero (IDB s2)) by now rewrite E2.
  split; [exact E1|]. split; [exact E2|]. split; [exact Z2|]. split.
  - intros i H5 H6 H7. rewrite E2, E1. unfold pions_off, wr.
    cbn [Z.ltb Z.compare].
    change (Z.to_nat 5) with 5%nat. change (Z.to_nat 6) with 6%nat.
    change (Z.to_nat 7) with 7%nat.
    rewrite !nth_error_upd_other by congruence. reflexivity.
  - intros NN HL. destruct Z2 as (H5 & H6 & H7).
    apply DECSIB_step_stable; [lia|].
    assert (C : Z.abs (rd 0 (LLIST s2) (NN - 1)) = 6 \/
                Z.abs (rd 0 (LLIST s2) (NN - 1)) = 7 \/
                Z.abs (rd 0 (LLIST s2) (NN - 1)) = 8) by lia.
    destruct C as [C | [C | C]]; rewrite C;
      apply nth_error_rd; cbn; try lia; assumption.
Qed.
End Facts.
End PionFlags.

Module ThresholdFacts.
Import Rlu RluFacts Sophia SophiaFacts.
Local Open Scope Q_scope.

Lemma to_double_range r : (0 < r < ONE)%Z -> 0 < to_double r /\ to_double r < 1.
Proof.
  intros [H0 H1]. unfold to_double, Qlt, ONE in *. cbn [Qnum Qden]. lia.
Qed.

Section Facts.
Context {libm : Libm} {tables : Tables} {jetset : Jetset} {routines : Routines}.

(** [RNDM] returns, and leaves the generator in a state it can be
    called in again. *)
Lemma RNDM_total s :
  reachable (rlu s) ->
  exists r g, RNDM s = (Ok (to_double r), set_rlu g s) /\
              (0 < r < ONE)%Z /\ reachable g.
Proof.
  intros Hr. destruct (reachable_inv _ Hr) as [Hst _].
  assert (Hst' : fresh (rlu s) \/ seeded (rlu s)).
  { destruct Hst as [->|Hs]; [left; apply fresh_static|now right]. }
  destruct (RLU_total 99 true (rlu s) Hst' (le_n _)) as (r & g & E & Hrg & _).
  exists r, g. unfold RNDM, Rlu.RNDM, RLU_FUEL. rewrite E.
  split; [reflexivity|]. split; [exact Hrg|]. eapply reach_call; eauto.
Qed.

Lemma eventgen_below_threshold fuel L0 E0 eps theta s :
  eventgen_s L0 E0 eps theta < 1.1646 ->
  eventgen fuel L0 E0 eps theta s = (Ok tt, set_np 0 s).
Proof.
  intros H. unfold eventgen. cbv zeta.
  destruct (fltb_spec (eventgen_s L0 E0 eps theta) 1.1646) as [_|H'].
  - destruct (if fltb _ _ then _ else _) as [[[COD SID] COF] SIF]. reflexivity.
  - exfalso. lra.
Qed.

Lemma sample_s_at_threshold eps L0 Ein s :
  reachable (rlu s) ->
  rd 0 AM (L0 - 1) * rd 0 AM (L0 - 1)
    + 2 * eps * (Ein + fsqrt (Ein * Ein - rd 0 AM (L0 - 1) * rd 0 AM (L0 - 1)))
    - 1.1646 <= 1e-8 ->
  exists r g, sample_s eps L0 Ein s = (Ok (1.1646 + to_double r * 1e-6), set_rlu g s) /\
              (0 < r < ONE)%Z /\ reachable g.
Proof.
  intros Hr Hmax. unfold sample_s. cbv zeta.
  destruct (RNDM_total s Hr) as (r & g & E & Hrg & Hg).
  exists r, g. split; [|split; assumption].
  match goal with |- context [fleb ?d 1e-8] => destruct (fleb_spec d 1e-8) as [_|Hd] end.
  - unfold bind. rewrite E. reflexivity.
  - exfalso. revert Hd Hmax. unfold fmax.
    generalize (rd 0 AM (L0 - 1) * rd 0 AM (L0 - 1) + 2 * eps *
      (Ein + fsqrt (Ein * Ein - rd 0 AM (L0 - 1) * rd 0 AM (L0 - 1)))).
    intros X. change (1e-8) with (1 # 100000000).
    destruct (fltb_spec 1.1646 X); intros; lra.
Qed.

End Facts.

(** *** The sub-threshold scenario on the example instance *)

Import Example.

Lemma clamp_range lo hi x : lo <= hi -> lo <= Example.clamp lo hi x <= hi.
Proof.
  intros H. unfold Example.clamp.
  destruct (Qle_bool x lo) eqn:E1; [lra|].
  destruct (Qle_bool hi x) eqn:E2; [lra|].
  split.
  - destruct (Qlt_le_dec x lo) as [C|C]; [|exact C].
    apply Qlt_le_weak in C. apply Qle_bool_iff in C. congruence.
  - destruct (Qlt_le_dec hi x) as [C|C]; [|exact C].
    apply Qlt_le_weak in C. apply Qle_bool_iff in C. congruence.
Qed.

Lemma cos_q_range x : -1 <= Example.cos_q x <= 1.
Proof. apply clamp_range. lra. Qed.

Lemma scenario_below_threshold theta :
  eventgen_s 13 1 0.0001 theta < 1.1646.
Proof.
  unfold eventgen_s. cbv zeta.
  set (c := fcos _). assert (Hc : -1 <= c <= 1) by apply cos_q_range. clearbody c.
  set (pm := rd 0 AM (13 - 1)).
  set (b := if fltb 1000 (1 / pm) then _ else _).
  assert (Hb : 0 <= b /\ b <= 0.35).
  { subst b pm. split; apply Qle_bool_iff; vm_compute; reflexivity. }
  clearbody b.
  assert (Hpm : pm == 0.93827) by (subst pm; vm_compute; reflexivity).
  clearbody pm. rewrite Hpm. nra.
Qed.

End ThresholdFacts.

Module RetryFacts.
Import Rlu Sophia SophiaFacts.

Section Facts.
Context {libm : Libm} {tables : Tables} {jetset : Jetset} {routines : Routines}.
Variables (fuel : nat) (Ecm : Q) (ip1 ip2 Imode : Z) (ptu as1 as2 : Q).

Let pass := gamma_h_pass fuel Ecm ip1 ip2 Imode ptu as1 as2.
Let loop n itry := gamma_h_loop n fuel itry Ecm ip1 ip2 Imode ptu as1 as2.
Let run k := rejected_run k fuel Ecm ip1 ip2 Imode ptu as1 as2.

Lemma reggeon_after_frag_failed s :
  np s < 0 -> reggeon_after_frag s = (Ok true, set_np 0 s).
Proof.
  intros H. unfold reggeon_after_frag, bind, gets.
  destruct (Z.ltb_spec (np s) 0); [reflexivity|lia].
Qed.

Lemma pomeron_after_frag_failed q s :
  np s < 0 -> pomeron_after_frag q s = (Ok (true, (q + 0.1)%Q), set_np 0 s).
Proof.
  intros H. unfold pomeron_after_frag, bind, gets.
  destruct (Z.ltb_spec (np s) 0); [reflexivity|lia].
Qed.

(** A pass that sets [repeat100] is followed by another one, as long as
    fewer than fifty have been made. *)
Lemma gamma_h_loop_rejected n itry q q' s s' :
  itry < 50 -> pass q s = (Ok (Repeat100, q'), s') ->
  loop (S n) itry q s = loop n (itry + 1) q' s'.
Proof.
  intros Hi Hp. subst pass loop. cbn [gamma_h_loop].
  destruct (Z.ltb_spec 50 (itry + 1)); [lia|].
  unfold bind at 1. rewrite Hp. reflexivity.
Qed.

Lemma gamma_h_loop_run k : forall n itry q s q' s',
  itry + Z.of_nat k <= 50 -> run k q s = Some (q', s') ->
  loop (k + n) itry q s = loop n (itry + Z.of_nat k) q' s'.
Proof.
  induction k as [|k IH]; intros n itry q s q' s' Hi Hr.
  - cbn in Hr. injection Hr as <- <-. cbn [Nat.add Z.of_nat].
    now rewrite Z.add_0_r.
  - subst run. cbn [rejected_run] in Hr.
    destruct (gamma_h_pass _ _ _ _ _ _ _ _ _ _) as [[[[| |imul] q1]| | |] s1] eqn:Hp;
      try discriminate.
    cbn [Nat.add]. rewrite (gamma_h_loop_rejected (k + n) itry q q1 s s1 ltac:(lia) Hp).
    rewrite (IH n (itry + 1) q1 s1 q' s' ltac:(lia) Hr).
    f_equal. lia.
Qed.

Lemma gamma_h_loop_exhausted n q s :
  loop (S n) 50 q s = (Throw "gamma_h: more than 50 internal rejections", s).
Proof. reflexivity. Qed.

(** The loop never makes a fifty-first pass: what it is allowed beyond
    that is not used. *)
Lemma gamma_h_loop_fuel n : forall m itry q s,
  itry <= 50 -> 51 - itry <= Z.of_nat n -> 51 - itry <= Z.of_nat m ->
  loop n itry q s = loop m itry q s.
Proof.
  subst loop.
  induction n as [|n IH]; intros m itry q s H0 Hn Hm; [lia|].
  destruct m as [|m]; [lia|]. cbn [gamma_h_loop].
  destruct (Z.ltb_spec 50 (itry + 1)); [reflexivity|].
  unfold bind. destruct (gamma_h_pass _ _ _ _ _ _ _ _ _ _) as [[[e q1]| | |] s1];
    try reflexivity.
  destruct e; try reflexivity. apply IH; lia.
Qed.
End Facts.

Section Claim.
Context {libm : Libm} {tables : Tables} {jetset : Jetset} {routines : Routines}.

End Claim.

Import Example.

End RetryFacts.

Module BoostFacts.
Import Sophia.

(** The rows other than the energy row leave the block of [DECPAR_zero]
    as they entered it. *)
Lemma boost_back_zero_row P0 ND P_out J :
  J <> 3 -> rd [] (boost_back_zero P0 ND P_out) J = rd [] P_out J.
Proof.
  intros HJ. unfold boost_back_zero. cbv zeta.
  generalize (range 0 ND). intros l. revert P_out.
  induction l as [|I l IH]; intros P_out; cbn [fold_left]; [reflexivity|].
  rewrite IH. unfold wr2.
  apply rd_wr_other. congruence.
Qed.

End BoostFacts.

Module SampleFacts.
Import Rlu RluFacts Sophia SophiaFacts ThresholdFacts.
Local Open Scope Q_scope.

Section Facts.
Context {libm : Libm} {tables : Tables} {jetset : Jetset} {routines : Routines}.

Lemma set_rlu_set_rlu g1 g2 (s : sophia) : set_rlu g2 (set_rlu g1 s) = set_rlu g2 s.
Proof. reflexivity. Qed.

Lemma functs_ok s L0 : L0 = 13%Z \/ L0 = 14%Z -> exists v, functs s L0 = Ok v.
Proof.
  intros HL. unfold functs. cbv zeta.
  destruct (crossection_ok ((s - 0.93827 * 0.93827) / 2 / 0.93827) 3 L0 HL ltac:(lia))
    as [v E].
  rewrite E. cbn [rbind]. now eexists.
Qed.

Variables (smin smax pmax sintegr1 : Q) (L0 : Z).
Hypothesis HL0 : L0 = 13%Z \/ L0 = 14%Z.

(** Drawing a candidate always succeeds: two numbers are drawn, and the
    candidate lies [r] of the way from [smin] to [smax]. *)
Lemma sample_s_candidate_total st :
  reachable (rlu st) ->
  exists r r' ps g,
    sample_s_candidate smin smax pmax sintegr1 L0 st =
      (Ok (smin + to_double r * (smax - smin),
           fltb (ps / sintegr1) (to_double r' * pmax)), set_rlu g st) /\
    functs (smin + to_double r * (smax - smin)) L0 = Ok ps /\
    (0 < r < ONE)%Z /\ (0 < r' < ONE)%Z /\ reachable g.
Proof.
  intros Hr. unfold sample_s_candidate.
  destruct (RNDM_total st Hr) as (r & g1 & E1 & Hr1 & Hg1).
  destruct (functs_ok (smin + to_double r * (smax - smin)) L0 HL0) as [ps Eps].
  destruct (RNDM_total (set_rlu g1 st) Hg1) as (r' & g2 & E2 & Hr2 & Hg2).
  exists r, r', ps, g2.
  unfold bind at 1. rewrite E1. cbv zeta.
  unfold bind at 1. unfold lift. rewrite Eps.
  unfold bind at 1. rewrite E2. rewrite set_rlu_set_rlu.
  repeat split; try assumption; lia.
Qed.

(** The loop returns within 100000 candidates, with the last one
    drawn. *)
Lemma sample_s_reject_total (n : nat) : forall i s0 st,
  (0 <= i < 100000)%Z -> (100001 - i <= Z.of_nat n)%Z -> reachable (rlu st) ->
  exists s k st',
    sample_s_reject n i s0 smin smax pmax sintegr1 L0 st = (Ok (s, k), st') /\
    rejection_run smin smax pmax sintegr1 L0 i st s k st' /\
    (i < k <= 100000)%Z /\ reachable (rlu st').
Proof.
  induction n as [|n IH]; intros i s0 st Hi Hn Hr; [lia|].
  cbn [sample_s_reject].
  destruct (Z.leb_spec 100000 i); [lia|].
  destruct (sample_s_candidate_total st Hr) as (r & r' & ps & g & Ec & _ & _ & _ & Hg).
  unfold bind at 1. rewrite Ec.
  set (c := smin + to_double r * (smax - smin)) in *.
  destruct (fltb (ps / sintegr1) (to_double r' * pmax)) eqn:Erej.
  - destruct (Z.eq_dec (i + 1) 100000) as [Hlast|Hmore].
    + exists c, 100000%Z, (set_rlu g st).
      destruct n as [|n]; [lia|]. cbn [sample_s_reject].
      rewrite Hlast. cbn [Z.leb Z.compare Pos.compare Pos.compare_cont].
      split; [reflexivity|]. split; [|split; [lia|exact Hg]].
      assert (i = 99999%Z) as -> by lia. now apply run_give_up.
    + destruct (IH (i + 1)%Z c (set_rlu g st) ltac:(lia) ltac:(lia) Hg)
        as (s & k & st' & E & Hrun & Hk & Hr').
      exists s, k, st'. split; [exact E|]. split; [|split; [lia|exact Hr']].
      eapply run_reject; eauto. lia.
  - exists c, (i + 1)%Z, (set_rlu g st).
    split; [reflexivity|]. split; [|split; [lia|exact Hg]].
    now apply run_accept.
Qed.
End Facts.

Section Claim.
Context {libm : Libm} {tables : Tables} {jetset : Jetset} {routines : Routines}.

(** With [smax <= s0] the rejection loop is run, whatever the two
    integrals are. *)
Lemma sample_s_rejection_branch
    (eps : Q) (L0 : Z) (Ein : Q) (st : sophia) (sintegr1 sintegr2 : Q) :
  let xmp := rd 0 AM (L0 - 1) in
  let smin := 1.1646 in
  let smax :=
    fmax smin (xmp * xmp + 2 * eps * (Ein + fsqrt (Ein * Ein - xmp * xmp))) in
  1e-8 < smax - smin ->
  gaussInt (fun s => functs s L0) smin 10 = Ok sintegr1 ->
  gaussInt (fun s => functs s L0) 10 smax = Ok sintegr2 ->
  smax <= 10 ->
  sample_s eps L0 Ein st =
  bind (sample_s_reject REJECT_FUEL 0 0 smin smax (1300 / sintegr1) sintegr1 L0)
       (fun sk => ret (fst sk)) st.
Proof.
  intros xmp smin smax Hgap H1 H2 Hle.
  assert (Hfleb : fleb (smax - smin) 1e-8 = false).
  { destruct (fleb_spec (smax - smin) 1e-8); [|reflexivity].
    revert Hgap H. change (1e-8) with (1 # 100000000).
    generalize (smax - smin). intros; lra. }
  unfold sample_s. cbv zeta. fold xmp. fold smin. fold smax.
  rewrite Hfleb. unfold bind at 1. unfold lift at 1. rewrite H1.
  unfold bind at 1. unfold lift at 1. rewrite H2.
  destruct (fleb_spec smax 10); [|exfalso; lra].
  unfold bind at 1. unfold ret at 1. cbn [Z.eqb Pos.eqb].
  unfold bind.
  destruct (sample_s_reject _ _ _ _ _ _ _ _ st) as [[[v k]| | |] s']; reflexivity.
Qed.

End Claim.
End SampleFacts.

Module ExampleFacts.
Import Rlu RluFacts Sophia SophiaFacts ThresholdFacts SampleFacts Example.
Local Open Scope Q_scope.

(** *** The fixed-point exponential *)

Lemma fmul_mono a b a' b' :
  (0 <= a <= a')%Z -> (0 <= b <= b')%Z -> (0 <= fmul a b <= fmul a' b')%Z.
Proof.
  intros Ha Hb. unfold fmul, SCALE. split.
  - apply Z.div_pos; [nia|lia].
  - apply Z.div_le_mono; [lia|nia].
Qed.

Lemma exp_series_mono n t t' :
  (0 <= t <= t')%Z -> (0 <= exp_series n t <= exp_series n t')%Z.
Proof.
  intros Ht. unfold exp_series. generalize 1%nat.
  induction n as [|n IH]; intros a; cbn [seq map fold_right].
  - unfold SCALE. lia.
  - generalize (IH (S a)).
    generalize (fold_right (fun k acc => (SCALE + fmul t acc / k)%Z) SCALE
                           (map Z.of_nat (seq (S a) n))).
    generalize (fold_right (fun k acc => (SCALE + fmul t' acc / k)%Z) SCALE
                           (map Z.of_nat (seq (S a) n))).
    intros x' x Hx.
    pose proof (fmul_mono t x t' x' Ht Hx) as Hm.
    assert (H0 : (0 <= fmul t x / Z.of_nat a <= fmul t' x' / Z.of_nat a)%Z).
    { destruct a as [|a].
      - cbn [Z.of_nat]. rewrite !Z.div_0_r. lia.
      - split; [apply Z.div_pos; lia|apply Z.div_le_mono; lia]. }
    unfold SCALE in *. lia.
Qed.

Lemma pow2_small k : (k <= -14)%Z -> 0 < pow2 k /\ pow2 k <= 1 # 16384.
Proof.
  intros Hk. unfold pow2. destruct (Z.leb_spec 0 k); [lia|].
  assert (H14 : (2 ^ 14 <= 2 ^ (- k))%Z) by (apply Z.pow_le_mono_r; lia).
  change (2 ^ 14)%Z with 16384%Z in H14.
  destruct (2 ^ (- k))%Z as [|p|p] eqn:E; try lia.
  unfold Qdiv, Qinv, Qmult, Qlt, Qle, inject_Z. cbn. lia.
Qed.

Lemma to_fx_mono x y : x <= y -> (to_fx x <= to_fx y)%Z.
Proof.
  intros H. unfold to_fx. apply Qfloor_resp_le.
  apply Qmult_le_compat_r; [exact H|]. unfold SCALE. discriminate.
Qed.

(** [exp_q] on arguments below -9.5: between 0 and 1.23e-4. *)
Lemma exp_q_small y : y <= -9.5 -> 0 <= exp_q y /\ exp_q y <= 123 # 1000000.
Proof.
  intros Hy. unfold exp_q. cbv zeta.
  set (k := Qfloor (y / LN2)).
  assert (HL : 0 < LN2) by reflexivity.
  assert (Hk : (k <= -14)%Z).
  { change (-14)%Z with (Qfloor (-9.5 / LN2)). apply Qfloor_resp_le.
    unfold Qdiv. apply Qmult_le_compat_r; [exact Hy|].
    apply Qlt_le_weak. now apply Qinv_lt_0_compat. }
  destruct (pow2_small k Hk) as [Hp0 Hp1].
  assert (Hlo : inject_Z k <= y / LN2) by apply Qfloor_le.
  assert (Hhi : y / LN2 < inject_Z (k + 1)) by apply Qlt_floor.
  rewrite inject_Z_plus in Hhi. change (inject_Z 1) with 1 in Hhi. clearbody k.
  assert (Hfrac : 0 <= y - inject_Z k * LN2 /\ y - inject_Z k * LN2 <= LN2).
  { assert (E : y == y / LN2 * LN2) by (field; discriminate).
    revert E Hlo Hhi. generalize (y / LN2) (inject_Z k). intros q z E Hlo Hhi.
    unfold LN2 in *. rewrite E. split; lra. }
  set (t := to_fx (y - inject_Z k * LN2)).
  assert (Ht : (0 <= t <= to_fx LN2)%Z).
  { subst t. split.
    - change 0%Z with (to_fx 0). apply to_fx_mono. tauto.
    - apply to_fx_mono. tauto. }
  pose proof (exp_series_mono 24 t (to_fx LN2) Ht) as Hs.
  set (e := exp_series 24 t) in *.
  assert (He : (e <= 36893488147419103233)%Z).
  { eapply Z.le_trans; [apply Hs|]. vm_compute. discriminate. }
  assert (Hq : 0 <= of_fx e /\ of_fx e <= 20000001 # 10000000).
  { unfold of_fx, Qle. cbn [Qnum Qden]. lia. }
  generalize dependent (of_fx e). generalize dependent (pow2 k).
  intros. split; nra.
Qed.

(** *** The cross section just above the threshold *)

Lemma resonance_term_zero x i :
  In i [0; 1; 2; 3; 4; 5; 6; 7; 8]%Z -> resonance_term x 13 i == 0.
Proof.
  intros Hi. unfold resonance_term, breitwigner. cbv zeta.
  cbn [Z.eqb Pos.eqb].
  assert (E : rd 0 RATIOJp i = 0).
  { cbn in Hi. repeat (destruct Hi as [<-|Hi]; [reflexivity|]). contradiction. }
  rewrite E. unfold Qdiv. ring.
Qed.

Lemma Pl_below x xth xmax alpha : x < xth -> Pl x xth xmax alpha = 0.
Proof. intros H. unfold Pl. destruct (fltb_spec x xth); [reflexivity|lra]. Qed.

Lemma Ef_below x th w : x <= th -> Ef x th w = 0.
Proof. intros H. unfold Ef. cbv zeta. destruct (fleb_spec x th); [reflexivity|lra]. Qed.

Lemma near_crossection x :
  0.1514 <= x -> x <= 0.1518 ->
  exists v, crossection x 3 13 = Ok v /\ v <= 492 # 100000.
Proof.
  intros Hlo Hhi. unfold crossection. cbn [Z.eqb Pos.eqb negb andb]. cbv zeta.
  destruct (fltb _ _); [exists 0; split; [reflexivity|discriminate]|].
  unfold crossection_select. cbn [Z.eqb Pos.eqb].
  eexists. split; [reflexivity|].
  unfold crossection_terms. cbv zeta.
  destruct (fltb_spec 0.85 x); [lra|].
  cbn [cross_res cross_dir cs_multidiff cross_frag2].
  destruct (fleb_spec x 10); [|lra].
  destruct (fltb_spec 0.1 x); [|lra]. destruct (fltb_spec x 0.6); [|lra].
  cbn [andb Z.eqb Pos.eqb map fold_left].
  unfold singleback, twoback.
  rewrite !Pl_below by lra. rewrite Ef_below by lra.
  rewrite !resonance_term_zero by (cbn; tauto).
  destruct (exp_q_small (- (x - 0.29) * (x - 0.29) / 0.002)) as [A0 A1].
  { unfold Qdiv. change (/ 0.002) with (1000 # 2). nra. }
  assert (B0 : 0 <= exp_q (- (x - 0.37) * (x - 0.37) / 0.002)).
  { apply exp_q_small. unfold Qdiv. change (/ 0.002) with (1000 # 2). nra. }
  change (@fexp libm) with exp_q.
  generalize dependent (exp_q (- (x - 0.29) * (x - 0.29) / 0.002)).
  generalize dependent (exp_q (- (x - 0.37) * (x - 0.37) / 0.002)).
  intros e2 He2 e1 He1a He1b.
  generalize (fpow (rd 0 AM (13 - 1) * rd 0 AM (13 - 1) + 2 * rd 0 AM (13 - 1) * x)
                   (-0.34)).
  intros w. lra.
Qed.

(** [functs] at an [s] between the threshold and 1.1651: at most
    1.41e-3. *)
Lemma near_functs s :
  1.1646 <= s -> s <= 1.1651 ->
  exists ps, functs s 13 = Ok ps /\ ps <= 141 # 100000.
Proof.
  intros Hlo Hhi. unfold functs. cbv zeta.
  destruct (near_crossection ((s - 0.93827 * 0.93827) / 2 / 0.93827)) as (v & E & Hv).
  - unfold Qdiv. change (/ 2) with (1 # 2). change (/ 0.93827) with (100000 # 93827). lra.
  - unfold Qdiv. change (/ 2) with (1 # 2). change (/ 0.93827) with (100000 # 93827). lra.
  - rewrite E. cbn [rbind]. eexists. split; [reflexivity|]. nra.
Qed.

(** *** A run of the rejection loop in which every candidate is rejected *)

Section Rejected.
Variables (smin smax sintegr1 : Q) (lo : Z).
Hypothesis Hsig : 0 < sintegr1.
Hypothesis Hfun : forall r, (0 < r < ONE)%Z ->
  exists ps, functs (smin + to_double r * (smax - smin)) 13 = Ok ps /\
             ps < 1300 * to_double lo.

Let pmax := 1300 / sintegr1.
Let cand (r : Z) := smin + to_double r * (smax - smin).

Lemma RNDM_draw st r g :
  reachable (rlu st) -> Rlu.RNDM 99 (rlu st) = Some (r, g) ->
  Sophia.RNDM st = (Ok (to_double r), set_rlu g st) /\
  (0 < r < ONE)%Z /\ reachable g.
Proof.
  intros Hr E.
  destruct (RNDM_total st Hr) as (r0 & g0 & E0 & Hr0 & Hg0).
  unfold Sophia.RNDM, RLU_FUEL in *. rewrite E in *.
  assert (r = r0) as -> by (unfold to_double in E0; congruence).
  assert (g = g0) as -> by (unfold set_rlu in E0; congruence).
  auto.
Qed.

Lemma candidate_rejected st r g1 r' g2 :
  reachable (rlu st) ->
  Rlu.RNDM 99 (rlu st) = Some (r, g1) -> Rlu.RNDM 99 g1 = Some (r', g2) ->
  (lo <= r')%Z ->
  sample_s_candidate smin smax pmax sintegr1 13 st =
    (Ok (cand r, true), set_rlu g2 st) /\ reachable g2.
Proof.
  intros Hr E1 E2 Hlo.
  destruct (RNDM_draw st r g1 Hr E1) as (D1 & Hr1 & Hg1).
  destruct (RNDM_draw (set_rlu g1 st) r' g2 Hg1 E2) as (D2 & Hr2 & Hg2).
  destruct (Hfun r Hr1) as (ps & Eps & Hps).
  split; [|exact Hg2].
  unfold sample_s_candidate.
  unfold bind at 1. rewrite D1. cbv zeta.
  unfold bind at 1. unfold lift. fold (cand r). unfold cand at 1. rewrite Eps.
  unfold bind at 1. rewrite D2. unfold ret. rewrite set_rlu_set_rlu.
  replace (fltb (ps / sintegr1) (to_double r' * pmax)) with true; [reflexivity|].
  symmetry. destruct (fltb_spec (ps / sintegr1) (to_double r' * pmax)) as [|H];
    [reflexivity|exfalso].
  assert (Hle : to_double lo <= to_double r').
  { unfold to_double, Qle. cbn [Qnum Qden]. lia. }
  subst pmax. unfold Qdiv in H.
  assert (Hi : 0 < / sintegr1) by now apply Qinv_lt_0_compat.
  revert H Hi Hps Hle. generalize (/ sintegr1) (to_double r') (to_double lo).
  intros i a b H Hi Hps Hle. nra.
Qed.

Lemma all_rejected n : forall s0 last st r_last g,
  (n = 0%nat -> s0 = cand last) ->
  reachable (rlu st) ->
  draw_pairs n lo last (rlu st) = Some (r_last, g) ->
  sample_s_reject (S n) (100000 - Z.of_nat n) s0 smin smax pmax sintegr1 13 st =
    (Ok (cand r_last, 100000%Z), set_rlu g st).
Proof.
  induction n as [|n IH]; intros s0 last st r_last g H0 Hr E.
  - cbn in E. injection E as <- <-. cbn. rewrite (H0 eq_refl).
    destruct st; reflexivity.
  - cbn [draw_pairs] in E.
    destruct (Rlu.RNDM 99 (rlu st)) as [[r g1]|] eqn:E1; [|discriminate].
    destruct (Rlu.RNDM 99 g1) as [[r' g2]|] eqn:E2; [|discriminate].
    destruct (Z.leb_spec lo r') as [Hlo|]; [|discriminate].
    destruct (candidate_rejected st r g1 r' g2 Hr E1 E2 Hlo) as [Ec Hg2].
    cbn [sample_s_reject].
    destruct (Z.leb_spec 100000 (100000 - Z.of_nat (S n))); [lia|].
    unfold bind at 1. rewrite Ec. cbv beta match.
    replace (100000 - Z.of_nat (S n) + 1)%Z with (100000 - Z.of_nat n)%Z by lia.
    pose proof (IH (cand r) r (set_rlu g2 st) r_last g (fun _ => eq_refl) Hg2 E)
      as IH'.
    cbn [sample_s_reject] in IH'. exact IH'.
Qed.
End Rejected.

(** *** The run from the first call, just above the threshold *)

Lemma near_smax_range :
  1e-8 < near_smax - 1.1646 /\ near_smax <= 10 /\
  1.1646 < near_smax /\ near_smax <= 1.1651.
Proof.
  split; [vm_compute; reflexivity|].
  split; [apply Qle_bool_iff; vm_compute; reflexivity|].
  split; [vm_compute; reflexivity|].
  apply Qle_bool_iff; vm_compute; reflexivity.
Qed.

Lemma near_candidate_bound r :
  (0 < r < ONE)%Z ->
  exists ps, functs (1.1646 + to_double r * (near_smax - 1.1646)) 13 = Ok ps /\
             ps < 1300 * to_double 24.
Proof.
  intros Hr. destruct (to_double_range r Hr) as [H0 H1].
  destruct near_smax_range as (_ & _ & Hlo & Hhi).
  destruct (near_functs (1.1646 + to_double r * (near_smax - 1.1646))) as (ps & E & Hps).
  - revert H0 H1 Hlo. generalize (to_double r) near_smax. intros; nra.
  - revert H0 H1 Hlo Hhi. generalize (to_double r) near_smax. intros; nra.
  - exists ps. split; [exact E|].
    eapply Qle_lt_trans; [exact Hps|]. vm_compute. reflexivity.
Qed.

Lemma near_sintegr1 :
  exists v, gaussInt (fun s => functs s 13) 1.1646 10 = Ok v /\ 0 < v.
Proof.
  assert (H : match gaussInt (fun s => functs s 13) 1.1646 10 with
              | Ok v => fltb 0 v
              | _ => false
              end = true) by (vm_compute; reflexivity).
  revert H. generalize (gaussInt (fun s => functs s 13) 1.1646 10).
  intros [v| | |] H; try discriminate H.
  exists v. split; [reflexivity|]. now destruct (fltb_spec 0 v).
Qed.

Lemma near_sintegr2 :
  exists v, gaussInt (fun s => functs s 13) 10 near_smax = Ok v.
Proof.
  assert (H : match gaussInt (fun s => functs s 13) 10 near_smax with
              | Ok v => true
              | _ => false
              end = true) by (vm_compute; reflexivity).
  revert H. generalize (gaussInt (fun s => functs s 13) 10 near_smax).
  intros [v| | |] H; try discriminate H. now exists v.
Qed.

(** The 200000 numbers the loop draws in the first call: the second of
    every pair is at least 24 * 2^-24, and the first of the last pair is
    5748248 * 2^-24. *)
Lemma near_draws :
  exists g, draw_pairs (Z.to_nat 100000) 24 0 rlu_static = Some (5748248%Z, g).
Proof. vm_compute. eexists. reflexivity. Qed.

Lemma near_first_draws :
  exists g1 r1' g2,
    Rlu.RNDM 99 rlu_static = Some (16698236%Z, g1) /\
    Rlu.RNDM 99 g1 = Some (r1', g2) /\ (24 <= r1')%Z.
Proof.
  eexists _, _, _. split; [vm_compute; reflexivity|].
  split; [vm_compute; reflexivity|]. apply Z.leb_le. vm_compute. reflexivity.
Qed.

(** *** [functs] at the first and at the last candidate *)

Lemma Qfloor_unique (q : Q) (z : Z) :
  inject_Z z <= q -> q < inject_Z (z + 1) -> Qfloor q = z.
Proof.
  intros H1 H2. apply Z.le_antisymm.
  - assert (H : inject_Z (Qfloor q) < inject_Z (z + 1)).
    { eapply Qle_lt_trans; [apply Qfloor_le|exact H2]. }
    rewrite <- Zlt_Qlt in H. lia.
  - rewrite <- (Qfloor_Z z). now apply Qfloor_resp_le.
Qed.

Lemma exp_q_window (k : Z) (y : Q) :
  inject_Z k * LN2 <= y -> y < inject_Z (k + 1) * LN2 ->
  exp_q y = pow2 k * of_fx (exp_series 24 (to_fx (y - inject_Z k * LN2))) /\
  0 <= y - inject_Z k * LN2.
Proof.
  intros H1 H2. unfold exp_q. cbv zeta.
  assert (HL : 0 < LN2) by reflexivity.
  assert (E : Qfloor (y / LN2) = k).
  { apply Qfloor_unique.
    - apply Qle_shift_div_l; assumption.
    - apply Qlt_shift_div_r; assumption. }
  rewrite E. split; [reflexivity|lra].
Qed.

Lemma pow2_nonneg k : 0 <= pow2 k.
Proof.
  unfold pow2. destruct (Z.leb_spec 0 k).
  - change 0 with (inject_Z 0). rewrite <- Zle_Qle. apply Z.pow_nonneg. lia.
  - assert (H2 : (0 < 2 ^ (- k))%Z) by (apply Z.pow_pos_nonneg; lia).
    destruct (2 ^ (- k))%Z as [|p|p] eqn:E; try lia.
    unfold Qdiv, Qinv, Qmult, Qle, inject_Z. cbn. lia.
Qed.

(** On a stretch where [Qfloor (y / LN2)] is the same, [exp_q] does not
    decrease. *)
Lemma exp_q_mono (k : Z) (y y' : Q) :
  inject_Z k * LN2 <= y -> y <= y' -> y' < inject_Z (k + 1) * LN2 ->
  exp_q y <= exp_q y'.
Proof.
  intros H1 H2 H3.
  destruct (exp_q_window k y H1 ltac:(lra)) as [-> Hy].
  destruct (exp_q_window k y' ltac:(lra) H3) as [-> Hy'].
  assert (Hs : of_fx (exp_series 24 (to_fx (y - inject_Z k * LN2))) <=
               of_fx (exp_series 24 (to_fx (y' - inject_Z k * LN2)))).
  { unfold of_fx, Qle. cbn [Qnum Qden].
    apply Z.mul_le_mono_nonneg_r; [lia|].
    apply exp_series_mono. split.
    - change 0%Z with (to_fx 0). now apply to_fx_mono.
    - apply to_fx_mono. lra. }
  pose proof (pow2_nonneg k) as Hp.
  revert Hs Hp. generalize (pow2 k).
  generalize (of_fx (exp_series 24 (to_fx (y - inject_Z k * LN2))))
             (of_fx (exp_series 24 (to_fx (y' - inject_Z k * LN2)))).
  intros; nra.
Qed.

(** [exp_q] below -22.9: at most 2.4e-10. *)
Lemma exp_q_tiny y : y <= -22.9 -> 0 <= exp_q y /\ exp_q y <= 24 # 100000000000.
Proof.
  intros Hy. unfold exp_q. cbv zeta.
  set (k := Qfloor (y / LN2)).
  assert (HL : 0 < LN2) by reflexivity.
  assert (Hk : (k <= -34)%Z).
  { change (-34)%Z with (Qfloor (-22.9 / LN2)). apply Qfloor_resp_le.
    unfold Qdiv. apply Qmult_le_compat_r; [exact Hy|].
    apply Qlt_le_weak. now apply Qinv_lt_0_compat. }
  assert (Hp : 0 < pow2 k /\ pow2 k <= 1 # 17179869184).
  { unfold pow2. destruct (Z.leb_spec 0 k); [lia|].
    assert (H34 : (2 ^ 34 <= 2 ^ (- k))%Z) by (apply Z.pow_le_mono_r; lia).
    change (2 ^ 34)%Z with 17179869184%Z in H34.
    destruct (2 ^ (- k))%Z as [|p|p] eqn:E; try lia.
    unfold Qdiv, Qinv, Qmult, Qlt, Qle, inject_Z. cbn. lia. }
  destruct Hp as [Hp0 Hp1].
  assert (Hlo : inject_Z k <= y / LN2) by apply Qfloor_le.
  assert (Hhi : y / LN2 < inject_Z (k + 1)) by apply Qlt_floor.
  rewrite inject_Z_plus in Hhi. change (inject_Z 1) with 1 in Hhi. clearbody k.
  assert (Hfrac : 0 <= y - inject_Z k * LN2 /\ y - inject_Z k * LN2 <= LN2).
  { assert (E : y == y / LN2 * LN2) by (field; discriminate).
    revert E Hlo Hhi. generalize (y / LN2) (inject_Z k). intros q z E Hlo Hhi.
    unfold LN2 in *. rewrite E. split; lra. }
  set (t := to_fx (y - inject_Z k * LN2)).
  assert (Ht : (0 <= t <= to_fx LN2)%Z).
  { subst t. split.
    - change 0%Z with (to_fx 0). apply to_fx_mono. tauto.
    - apply to_fx_mono. tauto. }
  pose proof (exp_series_mono 24 t (to_fx LN2) Ht) as Hs.
  set (e := exp_series 24 t) in *.
  assert (He : (e <= 36893488147419103233)%Z).
  { eapply Z.le_trans; [apply Hs|]. vm_compute. discriminate. }
  assert (Hq : 0 <= of_fx e /\ of_fx e <= 20000001 # 10000000).
  { unfold of_fx, Qle. cbn [Qnum Qden]. lia. }
  generalize dependent (of_fx e). generalize dependent (pow2 k).
  intros. split; nra.
Qed.

(** [functs] between the threshold and 1.1651, in terms of the two
    exponentials of the direct channel: nothing else contributes. *)
Lemma near_functs_value s :
  1.1646 <= s -> s <= 1.1651 ->
  let x := (s - 0.93827 * 0.93827) / 2 / 0.93827 in
  exists ps,
    functs s 13 = Ok ps /\
    ps == (s - 0.93827 * 0.93827) *
          (40 * exp_q (- (x - 0.29) * (x - 0.29) / 0.002)
           - 15 * exp_q (- (x - 0.37) * (x - 0.37) / 0.002)).
Proof.
  intros Hlo Hhi x. unfold functs. cbv zeta. fold x.
  assert (Hx : 0.1514 <= x /\ x <= 0.1518).
  { subst x. unfold Qdiv. change (/ 2) with (1 # 2).
    change (/ 0.93827) with (100000 # 93827). split; lra. }
  unfold crossection. cbn [Z.eqb Pos.eqb negb andb]. cbv zeta.
  change (rd 0 AM (13 - 1)) with 0.93827.
  destruct (fltb_spec (0.93827 * 0.93827 + 2 * 0.93827 * x) 1.1646) as [Hs|Hs].
  { exfalso. revert Hs. subst x. unfold Qdiv. change (/ 2) with (1 # 2).
    change (/ 0.93827) with (100000 # 93827). lra. }
  unfold crossection_select. cbn [Z.eqb Pos.eqb rbind].
  eexists. split; [reflexivity|].
  unfold crossection_terms. cbv zeta.
  destruct (fltb_spec 0.85 x); [lra|].
  cbn [cross_res cross_dir cs_multidiff cross_frag2].
  destruct (fleb_spec x 10); [|lra].
  destruct (fltb_spec 0.1 x); [|lra]. destruct (fltb_spec x 0.6); [|lra].
  cbn [andb Z.eqb Pos.eqb map fold_left].
  unfold singleback, twoback.
  rewrite !Pl_below by lra. rewrite Ef_below by lra.
  rewrite !resonance_term_zero by (cbn; tauto).
  change (@fexp libm) with exp_q. ring.
Qed.

Lemma near_smax_value : 1.1650305 <= near_smax /\ near_smax <= 1.1650306.
Proof. split; apply Qle_bool_iff; vm_compute; reflexivity. Qed.

Lemma near_exp_values :
  7027 # 100000000 <= exp_q (-9.5631) /\ exp_q (-9.5836) <= 6886 # 100000000.
Proof. split; apply Qle_bool_iff; vm_compute; reflexivity. Qed.

Lemma near_densities :
  exists p1 p_ret,
    functs (1.1646 + to_double 16698236 * (near_smax - 1.1646)) 13 = Ok p1 /\
    functs (1.1646 + to_double 5748248 * (near_smax - 1.1646)) 13 = Ok p_ret /\
    p_ret < p1.
Proof.
  destruct near_smax_value as [Hm0 Hm1].
  destruct near_exp_values as [Ha Hb].
  set (c1 := 1.1646 + to_double 16698236 * (near_smax - 1.1646)).
  set (cr := 1.1646 + to_double 5748248 * (near_smax - 1.1646)).
  assert (Hc1 : 1.165028 <= c1 /\ c1 <= 1.1651).
  { subst c1. unfold to_double. revert Hm0 Hm1. generalize near_smax. intros; split; lra. }
  assert (Hcr : 1.1646 <= cr /\ cr <= 1.164748).
  { subst cr. unfold to_double. revert Hm0 Hm1. generalize near_smax. intros; split; lra. }
  clearbody c1 cr.
  destruct (near_functs_value c1 ltac:(lra) ltac:(lra)) as (p1 & E1 & V1).
  destruct (near_functs_value cr ltac:(lra) ltac:(lra)) as (pr & Er & Vr).
  exists p1, pr. split; [exact E1|]. split; [exact Er|].
  rewrite V1, Vr. clear E1 Er V1 Vr p1 pr.
  set (x1 := (c1 - 0.93827 * 0.93827) / 2 / 0.93827).
  set (xr := (cr - 0.93827 * 0.93827) / 2 / 0.93827).
  assert (Hx1 : 0.1517033 <= x1 /\ x1 <= 0.1518).
  { subst x1. unfold Qdiv. change (/ 2) with (1 # 2).
    change (/ 0.93827) with (100000 # 93827). split; lra. }
  assert (Hxr : 0.1514 <= xr /\ xr <= 0.15155418).
  { subst xr. unfold Qdiv. change (/ 2) with (1 # 2).
    change (/ 0.93827) with (100000 # 93827). split; lra. }
  clearbody x1 xr.
  assert (HL : LN2 = 0.693147180559945309) by reflexivity.
  assert (A1 : 7027 # 100000000 <= exp_q (- (x1 - 0.29) * (x1 - 0.29) / 0.002)).
  { eapply Qle_trans; [exact Ha|].
    apply (exp_q_mono (-14)).
    - rewrite HL. vm_compute. discriminate.
    - unfold Qdiv. change (/ 0.002) with (1000 # 2). nra.
    - rewrite HL. change (inject_Z (-14 + 1)) with (-13 # 1).
      unfold Qdiv. change (/ 0.002) with (1000 # 2). nra. }
  assert (A2 : exp_q (- (xr - 0.29) * (xr - 0.29) / 0.002) <= 6886 # 100000000).
  { eapply Qle_trans; [|exact Hb].
    apply (exp_q_mono (-14)).
    - rewrite HL. change (inject_Z (-14)) with (-14 # 1).
      unfold Qdiv. change (/ 0.002) with (1000 # 2). nra.
    - unfold Qdiv. change (/ 0.002) with (1000 # 2). nra.
    - rewrite HL. vm_compute. reflexivity. }
  destruct (exp_q_tiny (- (x1 - 0.37) * (x1 - 0.37) / 0.002)) as [B1 B2].
  { unfold Qdiv. change (/ 0.002) with (1000 # 2). nra. }
  destruct (exp_q_tiny (- (xr - 0.37) * (xr - 0.37) / 0.002)) as [B3 B4].
  { unfold Qdiv. change (/ 0.002) with (1000 # 2). nra. }
  revert A1 A2 B1 B2 B3 B4.
  generalize (exp_q (- (x1 - 0.29) * (x1 - 0.29) / 0.002))
             (exp_q (- (xr - 0.29) * (xr - 0.29) / 0.002))
             (exp_q (- (x1 - 0.37) * (x1 - 0.37) / 0.002))
             (exp_q (- (xr - 0.37) * (xr - 0.37) / 0.002)).
  intros a b c d A1 A2 B1 B2 B3 B4. nra.
Qed.

End ExampleFacts.

Module ExampleRuns.
Import Rlu RluFacts Sophia SophiaFacts ThresholdFacts SampleFacts PionFlags Example
       ExampleFacts.
Local Open Scope Q_scope.

Lemma dec_inter3_first_threshold_witness :
  exists tot c1 c7 c2 c8 c9 c0 : Q,
    crossection 1 3 13 = Ok tot /\
    crossection 1 1 13 = Ok c1 /\
    crossection 1 7 13 = Ok c7 /\
    crossection 1 2 13 = Ok c2 /\
    crossection 1 8 13 = Ok c8 /\
    crossection 1 9 13 = Ok c9 /\
    crossection 1 0 13 = Ok c0 /\
    let d := if feqb tot 0 then 1 else tot in
    let ths := [(c1 / d, 6%Z); (c7 / d, 2%Z); (c2 / d, 3%Z);
                (c8 / d, 1%Z); (c9 / d, 4%Z); (c0 / d, 5%Z)] in
    ~ d == 0 /\
    (tot == 0 -> d = 1) /\
    (forall s,
        dec_inter3 1 13 s =
        bind RNDM (fun rn =>
          lift (dec_inter3_branch (c1 / d) (c7 / d) (c2 / d) (c8 / d)
                                  (c9 / d) (c0 / d) rn)) s) /\
    (forall rn, rn <= 1 ->
        dec_inter3_branch (c1 / d) (c7 / d) (c2 / d) (c8 / d) (c9 / d) (c0 / d) rn
        = Ok (mode_of_draw rn ths)) /\
    ((forall t, In t ths -> fst t <= 1) ->
        dec_inter3_branch (c1 / d) (c7 / d) (c2 / d) (c8 / d) (c9 / d) (c0 / d) 1
        = Ok 0%Z).
Proof. exact (dec_inter3_first_threshold 1 13 (or_introl eq_refl)). Defined.

Lemma stable_pion_flags_persist_witness :
  flags_zero
    (IDB (after_calls [mkCall 0 true 1 0.0001 false; mkCall 0 false 1 0.0001 false]
                      (snd (sophiaevent 0 true 1 0.0001 true start)))).
Proof.
  refine (proj1 (proj2 (proj2
    (stable_pion_flags_persist start 0 true 1 0.0001
       [mkCall 0 true 1 0.0001 false; mkCall 0 false 1 0.0001 false] _)))).
  cbn. lia.
Defined.

End ExampleRuns.
